(** * create_poster.py: a shallow embedding and its properties

    The development follows the layout of [create_poster.py]: the [Track]
    class with its cache methods, the loader [load_tracks], the projection
    [latlng2xy] with [compute_bounds] and [draw_track], and the grid layout
    [compute_grid].

    Numbers.  The program is Python 3: [/] is true division, also of two
    [int]s.  Python's [int] is [Z].  Python's [float] is idealised as an
    exact number: a rational ([Q]) wherever the code only adds, subtracts,
    multiplies, divides and compares, and a real ([R]) where it calls
    [math.tan] and [math.log].  Every finite float is a rational, so float
    data is represented exactly; what the idealisation leaves out is the
    rounding of arithmetic results (and the values nan and inf).  The
    rounding matters where the program takes the floor or the remainder of
    a rounded quotient: the column count [width/best_size] of
    [compute_grid] is a whole number in the model, and in the program only
    when the two roundings cancel.  [count_x_in_doubles] computes it in
    binary64 (primitive floats), and the statements about the tiles of the
    poster are made where it is whole.

    Exceptions.  A function that can raise returns a [result]; a method that
    mutates [self] before raising returns the mutated object next to it. *)

From Stdlib Require Import ZArith QArith Qround Qreals Reals Psatz List Ascii String Bool
  Sorted.
From Stdlib Require PrimFloat.
From stdpp Require Import gmap strings.

Import ListNotations.
Local Open Scope Z_scope.

(** ** Exceptions and results *)

Inductive exn : Type :=
| ZeroDivisionError
| TypeError
| ValueError
| KeyError
| AttributeError
| JSONDecodeError
| IndexError
| FileNotFoundError
| GPXException
| NotADirectory.

Inductive result (A : Type) : Type :=
| Ok (a : A)
| Raise (e : exn).

Arguments Ok {A} a.
Arguments Raise {A} e.

Definition bind {A B : Type} (r : result A) (k : A -> result B) : result B :=
  match r with
  | Ok a => k a
  | Raise e => Raise e
  end.

Notation "'try!' x := r 'in' k" := (bind r (fun x => k))
  (at level 10, x name, r at level 100, k at level 200).

(** ** Python arithmetic on idealised floats *)

(** [a / b]: true division, raising on a zero divisor. *)
Definition py_div (a b : Q) : result Q :=
  if Qeq_bool b 0 then Raise ZeroDivisionError else Ok (a / b)%Q.

(** [a // b]: the floor of the quotient. *)
Definition py_floordiv (a b : Q) : result Q :=
  if Qeq_bool b 0 then Raise ZeroDivisionError
  else Ok (inject_Z (Qfloor (a / b))).

(** [a % b]: what is left of [a] after [a // b] whole multiples of [b]; it
    has the sign of [b]. *)
Definition py_mod (a b : Q) : result Q :=
  if Qeq_bool b 0 then Raise ZeroDivisionError
  else Ok (a - b * inject_Z (Qfloor (a / b)))%Q.

Definition Qltb (a b : Q) : bool := negb (Qle_bool b a).

(** [range(a, b)] *)
Definition range (a b : Z) : list Z :=
  map (fun i => a + Z.of_nat i) (seq 0 (Z.to_nat (b - a))).

(** ** compute_grid *)

(** The waste of the candidate column count [x]: [s = width/x] and
    [waste = width*height - count*s*s].  The loop runs over [x >= 1], so
    this division raises nothing. *)
Definition candidate_size (width x : Z) : Q := (inject_Z width / inject_Z x)%Q.

Definition candidate_waste (count width height x : Z) : Q :=
  (inject_Z (width * height)
   - inject_Z count * candidate_size width x * candidate_size width x)%Q.

(** One iteration of the scan; the state is [(min_waste, best_size)]. *)
Definition grid_step (count width height : Z) (st : Q * Q) (x : Z) : Q * Q :=
  let '(min_waste, best_size) := st in
  let s := candidate_size width x in
  let waste := candidate_waste count width height x in
  if Qltb waste 0 then st
  else if Qltb min_waste 0 || Qltb waste min_waste then (waste, s)
  else st.

Definition grid_scan (count width height : Z) (xs : list Z) : Q * Q :=
  fold_left (grid_step count width height) xs (-1, -1)%Q.

Definition compute_grid (count width height : Z) : result (Q * Q * Q * Q) :=
  let '(min_waste, best_size) := grid_scan count width height (range 1 width) in
  try! count_x := py_div (inject_Z width) best_size in
  try! count_y := py_floordiv (inject_Z count) count_x in
  try! r := py_mod (inject_Z count) count_x in
  let count_y := if Qltb 0 r then (count_y + 1)%Q else count_y in
  try! spacing_y := py_div (inject_Z height - count_y * best_size)%Q count_y in
  Ok (best_size, count_x, count_y, spacing_y).

(** ** datetime

    [datetime.datetime] without a time zone, with the arithmetic of CPython's
    [datetime] module: [toordinal] counts days from 0001-01-01, subtraction
    gives a [timedelta], here its total in microseconds. *)

Module datetime.

Record t : Type := mk {
  year : Z; month : Z; day : Z;
  hour : Z; minute : Z; second : Z; microsecond : Z
}.

Definition is_leap (y : Z) : bool :=
  (y mod 4 =? 0) && (negb (y mod 100 =? 0) || (y mod 400 =? 0)).

Definition days_before_year (y : Z) : Z :=
  let y := y - 1 in y * 365 + y / 4 - y / 100 + y / 400.

Definition days_in_month (y m : Z) : Z :=
  if (m =? 2) && is_leap y then 29
  else nth (Z.to_nat m) [-1; 31; 28; 31; 30; 31; 30; 31; 31; 30; 31; 30; 31] 0.

Definition days_before_month (y m : Z) : Z :=
  nth (Z.to_nat m) [-1; 0; 31; 59; 90; 120; 151; 181; 212; 243; 273; 304; 334] 0
  + (if (2 <? m) && is_leap y then 1 else 0).

Definition toordinal (d : t) : Z :=
  days_before_year (year d) + days_before_month (year d) (month d) + day d.

(** The fields a constructed [datetime] object always satisfies. *)
Definition valid (d : t) : bool :=
  (1 <=? year d) && (year d <=? 9999) &&
  (1 <=? month d) && (month d <=? 12) &&
  (1 <=? day d) && (day d <=? days_in_month (year d) (month d)) &&
  (0 <=? hour d) && (hour d <? 24) &&
  (0 <=? minute d) && (minute d <? 60) &&
  (0 <=? second d) && (second d <? 60) &&
  (0 <=? microsecond d) && (microsecond d <? 1000000).

(** [a - b] as a [timedelta], in microseconds. *)
Definition sub (a b : t) : Z :=
  let secs (d : t) := second d + minute d * 60 + hour d * 3600 in
  ((toordinal a - toordinal b) * 86400 + (secs a - secs b)) * 1000000
  + (microsecond a - microsecond b).

(** [timedelta.total_seconds()] *)
Definition total_seconds (td : Z) : Q := td # 1000000.

(** [a < b]: the fields are compared in order. *)
Definition fields (d : t) : list Z :=
  [year d; month d; day d; hour d; minute d; second d; microsecond d].

Fixpoint lex_ltb (a b : list Z) : bool :=
  match a, b with
  | x :: a', y :: b' => (x <? y) || ((x =? y) && lex_ltb a' b')
  | [], _ :: _ => true
  | _, [] => false
  end.

Definition ltb (a b : t) : bool := lex_ltb (fields a) (fields b).

(** The datetime with its fraction of a second dropped. *)
Definition whole_second (d : t) : t :=
  mk (year d) (month d) (day d) (hour d) (minute d) (second d) 0.

(** *** strftime and strptime with the format "%Y-%m-%d %H:%M:%S"

    Every field is written with its full width, zero-padded, the year with
    four digits as the library documents it; the format has no field for
    the microseconds. *)

Definition digit (n : Z) : ascii := ascii_of_nat (48 + Z.to_nat (n mod 10)).

Definition pad2 (n : Z) : list ascii := [digit (n / 10); digit n].

Definition pad4 (n : Z) : list ascii :=
  [digit (n / 1000); digit (n / 100); digit (n / 10); digit n].

Definition strftime (d : t) : string :=
  string_of_list_ascii
    (pad4 (year d) ++ ["-"%char] ++ pad2 (month d) ++ ["-"%char] ++ pad2 (day d)
     ++ [" "%char]
     ++ pad2 (hour d) ++ [":"%char] ++ pad2 (minute d) ++ [":"%char]
     ++ pad2 (second d)).

Definition digit_val (c : ascii) : option Z :=
  let n := Z.of_nat (nat_of_ascii c) in
  if (48 <=? n) && (n <=? 57) then Some (n - 48) else None.

Fixpoint number (cs : list ascii) (acc : Z) : option Z :=
  match cs with
  | [] => Some acc
  | c :: cs' =>
      match digit_val c with
      | Some v => number cs' (acc * 10 + v)
      | None => None
      end
  end.

(** [strptime] on the zero-padded form that [strftime] writes.  CPython's
    [strptime] also takes a few unpadded spellings of the same fields; no
    cache entry written by [store_cache] has them. *)
Definition strptime (s : string) : result t :=
  match list_ascii_of_string s with
  | [y1; y2; y3; y4; s1; m1; m2; s2; d1; d2; s3; h1; h2; s4; n1; n2; s5; c1; c2] =>
      if (s1 =? "-")%char && (s2 =? "-")%char && (s3 =? " ")%char
         && (s4 =? ":")%char && (s5 =? ":")%char
      then
        match number [y1; y2; y3; y4] 0, number [m1; m2] 0, number [d1; d2] 0,
              number [h1; h2] 0, number [n1; n2] 0, number [c1; c2] 0 with
        | Some y, Some m, Some d, Some h, Some n, Some c =>
            let r := mk y m d h n c 0 in
            if valid r then Ok r else Raise ValueError
        | _, _, _, _, _, _ => Raise ValueError
        end
      else Raise ValueError
  | _ => Raise ValueError
  end.

End datetime.

(** ** JSON documents

    What [json.load] returns: [None], booleans, numbers, strings, lists and
    dicts (an object's keys are distinct; the first binding is looked up). *)

#[warnings="-register-all"]
Inductive json : Type :=
| JNull
| JBool (b : bool)
| JNum (q : Q)
| JStr (s : string)
| JArr (items : list json)
| JObj (members : list (string * json)).

Fixpoint assoc (key : string) (kvs : list (string * json)) : option json :=
  match kvs with
  | [] => None
  | (k, v) :: kvs' => if String.eqb key k then Some v else assoc key kvs'
  end.

(** [data[key]] with a string key. *)
Definition getitem (data : json) (key : string) : result json :=
  match data with
  | JObj kvs =>
      match assoc key kvs with
      | Some v => Ok v
      | None => Raise KeyError
      end
  | _ => Raise TypeError
  end.

(** [for x in data]: a list yields its items, a dict its keys, a string its
    characters; nothing else can be iterated. *)
Definition iter (data : json) : result (list json) :=
  match data with
  | JArr items => Ok items
  | JObj kvs => Ok (map (fun kv => JStr (fst kv)) kvs)
  | JStr s => Ok (map (fun c => JStr (String c EmptyString)) (list_ascii_of_string s))
  | _ => Raise TypeError
  end.

(** [float(x)].  A string is read as a float literal by Python; the model
    has no literal parser and takes every string as malformed
    ([store_cache] writes numbers only). *)
Definition float (x : json) : result Q :=
  match x with
  | JNum q => Ok q
  | JBool b => Ok (if b then 1 else 0)%Q
  | JStr _ => Raise ValueError
  | _ => Raise TypeError
  end.

(** [datetime.datetime.strptime(x, "%Y-%m-%d %H:%M:%S")] *)
Definition strptime (x : json) : result datetime.t :=
  match x with
  | JStr s => datetime.strptime s
  | _ => Raise TypeError
  end.

(** [[f(x) for x in xs]], stopping at the first exception. *)
Fixpoint map_result {A B : Type} (f : A -> result B) (xs : list A) : result (list B) :=
  match xs with
  | [] => Ok []
  | x :: xs' =>
      try! y := f x in
      try! ys := map_result f xs' in
      Ok (y :: ys)
  end.

(** ** The files the program reads and writes *)

(** The result of [gpxpy.parse] on a recording, as far as the program looks
    at it: the time bounds, the 2D length, and the points of every segment
    of every track after [simplify()]. *)
Record GPX : Type := {
  get_time_bounds : option datetime.t * option datetime.t;
  length_2d : Q;
  segments : list (list (Q * Q))
}.

(** A recording file: the SHA-256 hex digest of its bytes and what
    [gpxpy.parse] makes of them. *)
Record gpx_file : Type := {
  sha256 : string;
  parse : result GPX
}.

(** A file of the cache directory holds a JSON document or something that
    [json.load] rejects (an empty file, for one). *)
Inductive cache_file : Type :=
| NotJson
| Json (data : json).

Inductive dir_entry : Type :=
| File (name : string) (f : gpx_file)
| Subdir (name : string).

(** The cache directory maps [checksum] to the content of
    [<cache_dir>/<checksum>.json]. *)
Abbreviation cache_dir := (gmap string cache_file).

(** ** class Track *)

Module Track.

Record t : Type := mk {
  file_names : list string;
  polylines : list (list (Q * Q));
  start_time : option datetime.t;
  end_time : option datetime.t;
  length : Q;
  highlight : bool
}.

(** [Track()] *)
Definition init : t := mk [] [] None None 0 false.

Definition set_file_names (v : list string) (self : t) : t :=
  mk v (polylines self) (start_time self) (end_time self) (length self) (highlight self).
Definition set_polylines (v : list (list (Q * Q))) (self : t) : t :=
  mk (file_names self) v (start_time self) (end_time self) (length self) (highlight self).
Definition set_start_time (v : option datetime.t) (self : t) : t :=
  mk (file_names self) (polylines self) v (end_time self) (length self) (highlight self).
Definition set_end_time (v : option datetime.t) (self : t) : t :=
  mk (file_names self) (polylines self) (start_time self) v (length self) (highlight self).
Definition set_length (v : Q) (self : t) : t :=
  mk (file_names self) (polylines self) (start_time self) (end_time self) v (highlight self).

Definition set_is_highlight (b : bool) (self : t) : t :=
  mk (file_names self) (polylines self) (start_time self) (end_time self) (length self) b.

Definition append (self other : t) : t :=
  mk (file_names self ++ file_names other)
     (polylines self ++ polylines other)
     (start_time self)
     (end_time other)
     (length self + length other)%Q
     (highlight self || highlight other).

(** *** load_cache

    The method assigns to [self] as it goes, so an exception leaves the
    assignments made before it: the result is the object next to the
    outcome. *)

Definition point_of (d : json) : result (Q * Q) :=
  try! lat := bind (getitem d "lat") float in
  try! lng := bind (getitem d "lng") float in
  Ok (lat, lng).

(** The loop [for data_line in ...: self.polylines.append([...])]. *)
Fixpoint load_segments (self : t) (data_lines : list json) : t * result unit :=
  match data_lines with
  | [] => (self, Ok tt)
  | data_line :: rest =>
      match bind (iter data_line) (map_result point_of) with
      | Ok line => load_segments (set_polylines (polylines self ++ [line]) self) rest
      | Raise e => (self, Raise e)
      end
  end.

Definition load_data (self : t) (data : json) : t * result unit :=
  match bind (getitem data "start") strptime with
  | Raise e => (self, Raise e)
  | Ok st =>
  let self := set_start_time (Some st) self in
  match bind (getitem data "end") strptime with
  | Raise e => (self, Raise e)
  | Ok et =>
  let self := set_end_time (Some et) self in
  match bind (getitem data "length") float with
  | Raise e => (self, Raise e)
  | Ok len =>
  let self := set_length len self in
  let self := set_polylines [] self in
  match bind (getitem data "segments") iter with
  | Raise e => (self, Raise e)
  | Ok data_lines => load_segments self data_lines
  end end end end.

Definition load_cache (self : t) (checksum : string) (cache : cache_dir)
  : t * result unit :=
  match cache !! checksum with
  | None => (self, Raise FileNotFoundError)
  | Some NotJson => (self, Raise JSONDecodeError)
  | Some (Json data) => load_data self data
  end.

(** *** store_cache

    [open(cache_file_name, 'w')] empties the file before [data] is built, so
    a failing [strftime] (no start or end time) leaves an empty file. *)

Definition point_data (p : Q * Q) : json :=
  JObj [("lat"%string, JNum (fst p)); ("lng"%string, JNum (snd p))].

Definition lines_data (self : t) : list json :=
  map (fun line => JArr (map point_data line)) (polylines self).

Definition store_cache (self : t) (checksum : string) (cache : cache_dir)
  : result unit * cache_dir :=
  match start_time self, end_time self with
  | Some st, Some et =>
      let data :=
        JObj [("start"%string, JStr (datetime.strftime st));
              ("end"%string, JStr (datetime.strftime et));
              ("length"%string, JNum (length self));
              ("segments"%string, JArr (lines_data self))] in
      (Ok tt, <[checksum := Json data]> cache)
  | _, _ => (Raise AttributeError, <[checksum := NotJson]> cache)
  end.

(** *** load_gpx_no_cache and load_gpx

    Of the path [file_name] the methods use the base name, here [name], and
    the file behind it, here [file]; the cache file is the one named after
    the checksum of [file]. *)

Definition load_gpx_no_cache (self : t) (name : string) (file : gpx_file)
    (cache : cache_dir) : t * result unit * cache_dir :=
  let self := set_file_names [name] self in
  match parse file with
  | Raise e => (self, Raise e, cache)
  | Ok gpx =>
      let self := set_start_time (fst (get_time_bounds gpx)) self in
      let self := set_end_time (snd (get_time_bounds gpx)) self in
      let self := set_length (length_2d gpx) self in
      let self := set_polylines (polylines self ++ segments gpx) self in
      let '(r, cache) := store_cache self (sha256 file) cache in
      (self, r, cache)
  end.

Definition load_gpx (self : t) (name : string) (file : gpx_file)
    (cache : cache_dir) : t * result unit * cache_dir :=
  match cache !! sha256 file with
  | Some _ =>
      match load_cache self (sha256 file) cache with
      | (self, Ok _) => (set_file_names [name] self, Ok tt, cache)
      | (self, Raise _) => load_gpx_no_cache self name file cache
      end
  | None => load_gpx_no_cache self name file cache
  end.

End Track.

(** ** list_gpx_files and load_tracks *)

(** [name.endswith(suffix)] *)
Definition endswith (name suffix : string) : bool :=
  let n := String.length name in
  let k := String.length suffix in
  (k <=? n)%nat && String.eqb (substring (n - k) k name) suffix.

(** The directories of the file system, by path.  The generator yields the
    regular files whose name ends in ".gpx", each with its base name, which
    is all that the callers take from the path. *)
Definition list_gpx_files (dirs : gmap string (list dir_entry)) (base_dir : string)
  : result (list (string * gpx_file)) :=
  match dirs !! base_dir with
  | None => Raise NotADirectory
  | Some entries =>
      Ok (omap (fun e =>
                  match e with
                  | File name f => if endswith name ".gpx" then Some (name, f) else None
                  | Subdir _ => None
                  end) entries)
  end.

Definition min_length : Q := 1000.

(** [x in xs] for a list of strings. *)
Definition contains (xs : list string) (x : string) : bool :=
  existsb (String.eqb x) xs.

(** The body of the loading loop for one file; the state is the list
    [tracks] and the cache directory. *)
Definition load_one (year : Z) (highlight_filenames : list string)
    (st : list Track.t * cache_dir) (nf : string * gpx_file)
  : list Track.t * cache_dir :=
  let '(tracks, cache) := st in
  let '(name, file) := nf in
  match Track.load_gpx Track.init name file cache with
  | (t, Ok _, cache) =>
      let t := if contains highlight_filenames name
               then Track.set_is_highlight true t else t in
      if Qeq_bool (Track.length t) 0 then (tracks, cache)
      else
        match Track.start_time t with
        | None => (tracks, cache)
        | Some st =>
            if negb (datetime.year st =? year) then (tracks, cache)
            else (tracks ++ [t], cache)
        end
  | (_, Raise _, cache) => (tracks, cache)
  end.

(** [sorted(tracks, key=lambda t: t.start_time)]: a stable sort.  Every
    track that reaches it has a start time; the order given to [None] is
    never used. *)
Definition start_ltb (a b : Track.t) : bool :=
  match Track.start_time a, Track.start_time b with
  | Some x, Some y => datetime.ltb x y
  | None, Some _ => true
  | _, None => false
  end.

Fixpoint insert_sorted (t : Track.t) (sorted : list Track.t) : list Track.t :=
  match sorted with
  | [] => [t]
  | u :: rest => if start_ltb t u then t :: u :: rest else u :: insert_sorted t rest
  end.

Definition sorted_by_start_time (tracks : list Track.t) : list Track.t :=
  fold_left (fun acc t => insert_sorted t acc) tracks [].

(** [merged_tracks[-1].append(t)] *)
Definition append_to_last (merged_tracks : list Track.t) (t : Track.t)
  : result (list Track.t) :=
  match rev merged_tracks with
  | [] => Raise IndexError
  | m :: before => Ok (rev before ++ [Track.append m t])
  end.

(** [0 < dt < 3600] *)
Definition within_one_hour (dt : Q) : bool := Qltb 0 dt && Qltb dt 3600.

(** The time distance [dt] of a track to [last_end_time]. *)
Definition time_distance (t : Track.t) (last_end_time : datetime.t) : result Q :=
  match Track.start_time t with
  | Some st => Ok (datetime.total_seconds (datetime.sub st last_end_time))
  | None => Raise TypeError
  end.

(** The body of the merge loop; the state is [merged_tracks] and
    [last_end_time]. *)
Definition merge_step (st : list Track.t * option datetime.t) (t : Track.t)
  : result (list Track.t * option datetime.t) :=
  let '(merged_tracks, last_end_time) := st in
  try! merged_tracks :=
    match last_end_time with
    | None => Ok (merged_tracks ++ [t])
    | Some l =>
        try! dt := time_distance t l in
        if within_one_hour dt then append_to_last merged_tracks t
        else Ok (merged_tracks ++ [t])
    end in
  Ok (merged_tracks, Track.end_time t).

Fixpoint merge_loop (st : list Track.t * option datetime.t) (ts : list Track.t)
  : result (list Track.t * option datetime.t) :=
  match ts with
  | [] => Ok st
  | t :: ts' =>
      try! st' := merge_step st t in
      merge_loop st' ts'
  end.

Definition merge_tracks (sorted_tracks : list Track.t) : result (list Track.t) :=
  try! st := merge_loop ([], None) sorted_tracks in
  Ok (fst st).

Definition load_tracks (dirs : gmap string (list dir_entry)) (cache : cache_dir)
    (base_dir : string) (year : Z) (highlight_filenames : list string)
  : result (list Track.t) * cache_dir :=
  match list_gpx_files dirs base_dir with
  | Raise e => (Raise e, cache)
  | Ok file_names =>
      let '(tracks, cache) :=
        fold_left (load_one year highlight_filenames) file_names ([], cache) in
      let sorted_tracks := sorted_by_start_time tracks in
      (try! merged_tracks := merge_tracks sorted_tracks in
       Ok (List.filter (fun t => Qle_bool min_length (Track.length t)) merged_tracks),
       cache)
  end.

(** ** latlng2xy, compute_bounds and draw_track *)

(** [a / b] on floats seen as reals. *)
Definition R_div (a b : R) : result R :=
  if Req_dec_T b 0 then Raise ZeroDivisionError else Ok (a / b)%R.

(** [math.log] raises on an argument that is not positive.  For a latitude
    in (-90, 90) the argument of [latlng2xy] is a tangent on (0, pi/2), which
    is positive; at -90 it is [tan 0 = 0] and [math.log] raises.  (At +90 the
    real tangent has no value, where Python's rounded pi gives a large
    number.) *)
Definition math_log (a : R) : result R :=
  if Rlt_dec 0 a then Ok (ln a) else Raise ValueError.

Definition latlng2xy (lat lng : R) : result (R * R) :=
  try! l := math_log (tan (PI / 4 * (1 + lat / 90))) in
  Ok (lng / 180 + 1, 1 / 2 - l / PI)%R.

(** The four bounds are [None] together, until the first point is seen; the
    tuple is [(min_x, min_y, max_x, max_y)]. *)
Definition bounds_step (b : option (R * R * R * R)) (p : R * R)
  : option (R * R * R * R) :=
  let '(x, y) := p in
  match b with
  | None => Some (x, y, x, y)
  | Some (min_x, min_y, max_x, max_y) =>
      Some (Rmin x min_x, Rmin y min_y, Rmax x max_x, Rmax y max_y)
  end.

Definition compute_bounds (polylines : list (list (R * R))) : option (R * R * R * R) :=
  fold_left (fun b line => fold_left bounds_step line b) polylines None.

Definition project (p : Q * Q) : result (R * R) :=
  latlng2xy (Q2R (fst p)) (Q2R (snd p)).

(** The result of [draw_track] is the list of polylines added to the
    drawing. *)
Definition draw_track (track : Track.t) (x_offset y_offset width height : R)
  : result (list (list (R * R))) :=
  try! lines := map_result (map_result project) (Track.polylines track) in
  match compute_bounds lines with
  | None => Raise TypeError
  | Some (min_x, min_y, max_x, max_y) =>
      let d_x := (max_x - min_x)%R in
      let d_y := (max_y - min_y)%R in
      try! scale := R_div width d_x in
      try! aspect := R_div width height in
      try! d_aspect := R_div d_x d_y in
      try! scale := if Rlt_dec d_aspect aspect then R_div height d_y else Ok scale in
      let x_offset := (x_offset + (0.5 * width - 0.5 * scale * d_x))%R in
      let y_offset := (y_offset + (0.5 * height - 0.5 * scale * d_y))%R in
      Ok (map (map (fun p => (x_offset + scale * (fst p - min_x),
                              y_offset + scale * (snd p - min_y))%R)) lines)
  end.

(** ** compute_lengths

    A decimal literal such as [0.001] stands for the decimal number. *)

(** The body of the loop; the state is [(min_length, max_length,
    total_length)]. *)
Definition lengths_step (st : Q * Q * Q) (t : Track.t) : Q * Q * Q :=
  let '(min_length, max_length, total_length) := st in
  let total_length := (total_length + Track.length t)%Q in
  let min_length :=
    if Qltb min_length 0 || Qltb (Track.length t) min_length
    then Track.length t else min_length in
  let max_length :=
    if Qltb max_length 0 || Qltb max_length (Track.length t)
    then Track.length t else max_length in
  (min_length, max_length, total_length).

Definition compute_lengths (tracks : list Track.t) : result (Q * Q * Q * Q) :=
  let '(min_length, max_length, total_length) :=
    fold_left lengths_step tracks (-1, -1, 0)%Q in
  try! average :=
    py_div (0.001 * total_length)%Q (inject_Z (Z.of_nat (List.length tracks))) in
  Ok (0.001 * total_length, average, 0.001 * min_length, 0.001 * max_length)%Q.

(** ** poster

    Of the drawing the model keeps what the program computes: the four
    numbers of the statistics and, for every track, the highlight flag that
    selects its colour and the polylines that [draw_track] adds.  The texts
    and the file are the SVG library's. *)

Definition tracks_w : Z := 200 - 20.
Definition tracks_h : Z := 300 - 30 - 30.
Definition tracks_x : Q := 10.
Definition tracks_y : Q := 30.

(** The arguments [x_offset], [y_offset], [width], [height] that the loop
    passes to [draw_track] for the track at [index]. *)
Definition tile_rect (size count_x spacing_y : Q) (index : Z)
  : result (Q * Q * Q * Q) :=
  try! x := py_mod (inject_Z index) count_x in
  try! y := py_floordiv (inject_Z index) count_x in
  Ok (tracks_x + (0.05 + x) * size,
      tracks_y + (0.05 + y) * size + y * spacing_y,
      0.9 * size, 0.9 * size)%Q.

(** [enumerate(tracks)] *)
Definition enumerate {A : Type} (xs : list A) : list (Z * A) :=
  combine (map Z.of_nat (seq 0 (List.length xs))) xs.

Definition draw_tile (size count_x spacing_y : Q) (it : Z * Track.t)
  : result (bool * list (list (R * R))) :=
  try! r := tile_rect size count_x spacing_y (fst it) in
  let '(x, y, w, h) := r in
  try! lines := draw_track (snd it) (Q2R x) (Q2R y) (Q2R w) (Q2R h) in
  Ok (Track.highlight (snd it), lines).

Definition poster (tracks : list Track.t)
  : result (Q * Q * Q * Q * list (bool * list (list (R * R)))) :=
  try! stats := compute_lengths tracks in
  try! grid := compute_grid (Z.of_nat (List.length tracks)) tracks_w tracks_h in
  let '(size, count_x, count_y, spacing_y) := grid in
  try! drawn := map_result (draw_tile size count_x spacing_y) (enumerate tracks) in
  Ok (stats, drawn).

(** ** The column count in double precision

    [compute_grid] computes [s = width/x] and, for the selected size,
    [count_x = width/best_size], both rounded to binary64.
    [count_x_in_doubles width x] is the [count_x] of the program for the
    size of the candidate [x]. *)

(** [float(n)] for a positive [n]; exact below [2^53]. *)
Fixpoint float_of_positive (p : positive) : PrimFloat.float :=
  match p with
  | xH => PrimFloat.one
  | xO q => PrimFloat.mul PrimFloat.two (float_of_positive q)
  | xI q => PrimFloat.add (PrimFloat.mul PrimFloat.two (float_of_positive q))
                          PrimFloat.one
  end.

Definition float_of_int (n : Z) : PrimFloat.float :=
  match n with
  | Z0 => PrimFloat.zero
  | Zpos p => float_of_positive p
  | Zneg p => PrimFloat.opp (float_of_positive p)
  end.

Definition count_x_in_doubles (width x : Z) : PrimFloat.float :=
  let s := PrimFloat.div (float_of_int width) (float_of_int x) in
  PrimFloat.div (float_of_int width) s.

(** * Vocabulary of the statements, and example data *)

(** ** compute_grid *)

(** After the candidates [seen], the state of the scan is still the initial
    pair of sentinels and every candidate overflowed, or it is the waste and
    size of a candidate that did not. *)
Inductive scanned (count width height : Z) (seen : list Z) (st : Q * Q) : Prop :=
| scanned_none :
    st = (-1, -1)%Q ->
    (forall x, In x seen -> (candidate_waste count width height x < 0)%Q) ->
    scanned count width height seen st
| scanned_some (x : Z) :
    In x seen ->
    st = (candidate_waste count width height x, candidate_size width x) ->
    (0 <= candidate_waste count width height x)%Q ->
    scanned count width height seen st.

(** ** Tracks *)

Definition has_start (t : Track.t) : Prop := Track.start_time t <> None.

(** The track passed the three tests of the loading loop. *)
Definition kept (year : Z) (t : Track.t) : Prop :=
  ~ (Track.length t == 0)%Q
  /\ exists st, Track.start_time t = Some st /\ datetime.year st = year.

(** The session started in the requested year. *)
Definition started (year : Z) (t : Track.t) : Prop :=
  exists st, Track.start_time t = Some st /\ datetime.year st = year.

(** The points of a track, over all its polylines. *)
Definition points (track : Track.t) : list (Q * Q) :=
  concat (Track.polylines track).

(** ** Bounds and projected points *)

Definition ordered_bounds (b : option (R * R * R * R)) : Prop :=
  match b with
  | None => True
  | Some (min_x, min_y, max_x, max_y) => (min_x <= max_x /\ min_y <= max_y)%R
  end.

Definition bounds_at_x (x0 : R) (b : option (R * R * R * R)) : Prop :=
  match b with
  | None => True
  | Some (min_x, _, max_x, _) => min_x = x0 /\ max_x = x0
  end.

(** The projection of a point whose latitude is in range. *)
Definition projected (p : Q * Q) : R * R :=
  (Q2R (snd p) / 180 + 1,
   1 / 2 - ln (tan (PI / 4 * (1 + Q2R (fst p) / 90))) / PI)%R.

(** ** Example data *)

(** The tracks of the examples: one polyline, a length, and start and end
    times on 2016-05-01. *)
Definition on_may_first (h m s : Z) : datetime.t := datetime.mk 2016 5 1 h m s 0.

Definition recorded (name : string) (start_ end_ : datetime.t) (len : Q) : Track.t :=
  Track.mk [name] [[(0, 0); (1, 1)]%Q] (Some start_) (Some end_) len false.

(** A session ending at 12:00:00 and a track starting at a given time. *)
Definition ends_at_noon : Track.t :=
  recorded "a.gpx" (on_may_first 11 0 0) (on_may_first 12 0 0) 5000.

Definition starts_at (h m s : Z) : Track.t :=
  recorded "b.gpx" (on_may_first h m s) (on_may_first 14 0 0) 700.

(** A recording with one segment, and a cache entry for it whose second
    segment has a point without "lng". *)
Definition recording : gpx_file :=
  {| sha256 := "c0ffee";
     parse := Ok {| get_time_bounds :=
                      (Some (on_may_first 10 0 0), Some (on_may_first 11 0 0));
                    length_2d := 1500;
                    segments := [[(3, 4); (5, 6)]%Q] |} |}.

Definition damaged_entry : json :=
  JObj [("start"%string, JStr "2016-05-01 10:00:00");
        ("end"%string, JStr "2016-05-01 11:00:00");
        ("length"%string, JNum 1500);
        ("segments"%string,
         JArr [JArr [JObj [("lat"%string, JNum 1); ("lng"%string, JNum 2)]];
               JArr [JObj [("lat"%string, JNum 3)]]])].

(** A directory: A ends at 10:00 and B starts at 10:20, B ends at 10:45 and
    C starts at 12:00; the other entries are a file of another kind, a
    subdirectory, an empty track, a track without times, a track of another
    year, a file that does not parse and a track that is too short. *)
Definition gpx (checksum : string) (start_ end_ : option datetime.t) (len : Q)
    (lines : list (list (Q * Q))) : gpx_file :=
  {| sha256 := checksum;
     parse := Ok {| get_time_bounds := (start_, end_);
                    length_2d := len; segments := lines |} |}.

Definition runs : list dir_entry :=
  [ File "c.gpx" (gpx "cc" (Some (on_may_first 12 0 0)) (Some (on_may_first 13 0 0))
                    2500 [[(5, 5); (6, 6)]%Q]);
    File "a.gpx" (gpx "aa" (Some (on_may_first 9 0 0)) (Some (on_may_first 10 0 0))
                    800 [[(1, 1); (2, 2)]%Q]);
    File "notes.txt" (gpx "nn" (Some (on_may_first 9 0 0)) (Some (on_may_first 10 0 0))
                        9000 []);
    Subdir "old.gpx";
    File "b.gpx" (gpx "bb" (Some (on_may_first 10 20 0)) (Some (on_may_first 10 45 0))
                    700 [[(3, 3); (4, 4)]%Q]);
    File "empty.gpx" (gpx "ee" (Some (on_may_first 15 0 0)) (Some (on_may_first 15 0 0))
                        0 [[(7, 7)]%Q]);
    File "untimed.gpx" (gpx "uu" None None 4000 [[(8, 8); (9, 9)]%Q]);
    File "lastyear.gpx" (gpx "ll" (Some (datetime.mk 2015 5 1 9 0 0 0))
                           (Some (datetime.mk 2015 5 1 10 0 0 0))
                           4000 [[(8, 8); (9, 9)]%Q]);
    File "broken.gpx" {| sha256 := "xx"; parse := Raise GPXException |};
    File "short.gpx" (gpx "ss" (Some (on_may_first 18 0 0)) (Some (on_may_first 18 5 0))
                        999 [[(1, 1); (1, 2)]%Q]) ].

(** A single point, and two points that differ in both coordinates. *)
Definition single_point : Track.t :=
  Track.mk ["p.gpx"%string] [[(0, 0)%Q]] None None 0 false.

Definition diagonal : Track.t :=
  Track.mk ["d.gpx"%string] [[(0, 0); (45, 90)]%Q] None None 0 false.

(** ** Lengths *)

(** The sum of the lengths of the tracks. *)
Definition sum_lengths (tracks : list Track.t) : Q :=
  fold_right (fun t acc => (Track.length t + acc)%Q) 0%Q tracks.

Definition nonneg_length (t : Track.t) : Prop := (0 <= Track.length t)%Q.

(** The state of the loop of [compute_lengths] after the tracks [seen]. *)
Definition lengths_seen (seen : list Track.t) (st : Q * Q * Q) : Prop :=
  let '(min_length, max_length, total_length) := st in
  (total_length == sum_lengths seen)%Q
  /\ ((seen = [] /\ min_length = (-1)%Q /\ max_length = (-1)%Q)
      \/ ((exists t, In t seen /\ min_length = Track.length t)
          /\ (forall u, In u seen -> (min_length <= Track.length u)%Q)
          /\ (exists t, In t seen /\ max_length = Track.length t)
          /\ (forall u, In u seen -> (Track.length u <= max_length)%Q))).

(** ** Bounds of the points seen *)

(** [b] is nothing when no point was seen, and otherwise the least and the
    greatest coordinates of the points [seen]. *)
Definition bounds_of (seen : list (R * R)) (b : option (R * R * R * R)) : Prop :=
  match b with
  | None => seen = []
  | Some (min_x, min_y, max_x, max_y) =>
      (forall p, In p seen ->
                 (min_x <= fst p <= max_x /\ min_y <= snd p <= max_y)%R)
      /\ (exists p, In p seen /\ fst p = min_x)
      /\ (exists p, In p seen /\ snd p = min_y)
      /\ (exists p, In p seen /\ fst p = max_x)
      /\ (exists p, In p seen /\ snd p = max_y)
  end.

(** ** The candidate of least waste *)

(** For the candidate [x], the column count that the program computes in
    binary64 is the whole number [x], as in the model. *)
Definition whole_in_doubles (width x : Z) : bool :=
  PrimFloat.eqb (count_x_in_doubles width x) (float_of_int x).

(** Among the column counts [seen], [x] is one whose waste is not negative
    and is the least such waste. *)
Definition least_waste (count width height : Z) (seen : list Z) (x : Z) : Prop :=
  In x seen
  /\ (0 <= candidate_waste count width height x)%Q
  /\ forall y, In y seen ->
       (0 <= candidate_waste count width height y)%Q ->
       (candidate_waste count width height x
        <= candidate_waste count width height y)%Q.

(** ** The order of the tracks *)

(** [b] does not start before [a], in the order that the sort uses. *)
Definition start_le (a b : Track.t) : Prop := start_ltb b a = false.

(** ** Where the sessions come from *)

(** The file names of the track are names of the directory listing [files],
    at least one, and the track is highlighted when one of them is among
    [highlight_filenames]. *)
Definition traced (files : list (string * gpx_file))
    (highlight_filenames : list string) (t : Track.t) : Prop :=
  Track.file_names t <> []
  /\ (forall n, In n (Track.file_names t) -> exists f, In (n, f) files)
  /\ Track.highlight t
     = existsb (contains highlight_filenames) (Track.file_names t).

(** ** poster *)

(** The projected points of the track span a width and a height. *)
Definition has_extent (t : Track.t) : Prop :=
  exists lines min_x min_y max_x max_y,
    map_result (map_result project) (Track.polylines t) = Ok lines
    /\ compute_bounds lines = Some (min_x, min_y, max_x, max_y)
    /\ (min_x < max_x)%R /\ (min_y < max_y)%R.

(** * Properties *)

(** ** Comparisons and ranges *)

Lemma Qltb_true (a b : Q) : Qltb a b = true <-> (a < b)%Q.
Proof.
  unfold Qltb. rewrite negb_true_iff. split.
  - intros H. apply Qnot_le_lt. intros Hle.
    apply Qle_bool_iff in Hle. congruence.
  - intros H. destruct (Qle_bool b a) eqn:E; [|reflexivity].
    apply Qle_bool_iff in E. exfalso. exact (Qlt_not_le _ _ H E).
Qed.

Lemma Qltb_false (a b : Q) : Qltb a b = false <-> (b <= a)%Q.
Proof.
  unfold Qltb. rewrite negb_false_iff. apply Qle_bool_iff.
Qed.

Lemma Qeq_bool_false (a b : Q) : Qeq_bool a b = false <-> ~ (a == b)%Q.
Proof.
  split.
  - intros H E. apply Qeq_bool_iff in E. congruence.
  - intros H. destruct (Qeq_bool a b) eqn:E; [|reflexivity].
    apply Qeq_bool_iff in E. contradiction.
Qed.

Lemma in_range (a b x : Z) : In x (range a b) <-> a <= x < b.
Proof.
  unfold range. rewrite in_map_iff. split.
  - intros (i & <- & Hi). apply in_seq in Hi. lia.
  - intros H. exists (Z.to_nat (x - a)). split; [lia|].
    apply in_seq. lia.
Qed.

(** ** compute_grid: what the scan leaves behind *)

Section GridScan.

Variables count width height : Z.

Lemma scanned_step seen st x :
  scanned count width height seen st ->
  scanned count width height (seen ++ [x]) (grid_step count width height st x).
Proof.
  intros Hst. unfold grid_step. destruct st as [min_waste best_size].
  destruct (Qltb (candidate_waste count width height x) 0) eqn:Hneg.
  - apply Qltb_true in Hneg. destruct Hst as [E Hall | y Hy E Hpos].
    + apply scanned_none; [exact E|].
      intros z Hz. apply in_app_or in Hz as [Hz | [<- | []]]; auto.
    + apply scanned_some with y; auto. apply in_or_app. now left.
  - apply Qltb_false in Hneg.
    destruct (Qltb min_waste 0
              || Qltb (candidate_waste count width height x) min_waste) eqn:Hupd.
    + apply scanned_some with x; auto. apply in_or_app. right. now left.
    + destruct Hst as [E Hall | y Hy E Hpos].
      * inversion E; subst. discriminate Hupd.
      * apply scanned_some with y; auto. apply in_or_app. now left.
Qed.

Lemma scanned_fold xs : forall seen st,
  scanned count width height seen st ->
  scanned count width height (seen ++ xs)
    (fold_left (grid_step count width height) xs st).
Proof.
  induction xs as [|x xs IH]; intros seen st Hst; simpl.
  - now rewrite app_nil_r.
  - replace (seen ++ x :: xs) with ((seen ++ [x]) ++ xs)
      by now rewrite <- app_assoc.
    apply IH, scanned_step, Hst.
Qed.

Lemma scanned_grid_scan xs :
  scanned count width height xs (grid_scan count width height xs).
Proof.
  apply (scanned_fold xs [] (-1, -1)%Q).
  apply scanned_none; [reflexivity | intros x []].
Qed.

End GridScan.

(** ** compute_grid: the layout computed from a selected size *)

Lemma py_div_ok (a b : Q) : ~ (b == 0)%Q -> py_div a b = Ok (a / b)%Q.
Proof. intros H. unfold py_div. now rewrite (proj2 (Qeq_bool_false b 0) H). Qed.

Lemma py_floordiv_ok (a b : Q) :
  ~ (b == 0)%Q -> py_floordiv a b = Ok (inject_Z (Qfloor (a / b))).
Proof. intros H. unfold py_floordiv. now rewrite (proj2 (Qeq_bool_false b 0) H). Qed.

Lemma py_mod_ok (a b : Q) :
  ~ (b == 0)%Q -> py_mod a b = Ok (a - b * inject_Z (Qfloor (a / b)))%Q.
Proof. intros H. unfold py_mod. now rewrite (proj2 (Qeq_bool_false b 0) H). Qed.

Lemma inject_Z_pos (z : Z) : 0 < z -> (0 < inject_Z z)%Q.
Proof. intros H. unfold Qlt, inject_Z. simpl. lia. Qed.

Lemma candidate_size_pos (width x : Z) :
  0 < width -> 0 < x -> (0 < candidate_size width x)%Q.
Proof.
  intros Hw Hx. unfold candidate_size.
  apply Qlt_shift_div_l; [now apply inject_Z_pos|].
  rewrite Qmult_0_l. now apply inject_Z_pos.
Qed.

(** With a selected size [width/x] the column count is [x] again. *)
Lemma columns_of_candidate (width x : Z) :
  0 < width -> 0 < x ->
  (inject_Z width / candidate_size width x == inject_Z x)%Q.
Proof.
  intros Hw Hx. unfold candidate_size.
  pose proof (inject_Z_pos _ Hw) as Hwq. pose proof (inject_Z_pos _ Hx) as Hxq.
  field. split; lra.
Qed.

Lemma compute_grid_selected (count width height x : Z) (min_waste : Q) :
  1 <= count -> 0 < width -> 0 < x ->
  grid_scan count width height (range 1 width)
    = (min_waste, candidate_size width x) ->
  exists cx cy sp,
    compute_grid count width height = Ok (candidate_size width x, cx, cy, sp)
    /\ (cx == inject_Z x)%Q
    /\ (1 <= cy)%Q
    /\ (inject_Z count <= cy * cx)%Q
    /\ (sp == (inject_Z height - cy * candidate_size width x) / cy)%Q.
Proof.
  intros Hc Hw Hx Hscan. unfold compute_grid. rewrite Hscan.
  pose proof (candidate_size_pos _ _ Hw Hx) as Hs.
  pose proof (columns_of_candidate _ _ Hw Hx) as Hcx.
  pose proof (inject_Z_pos _ Hx) as Hxq.
  assert (Hcq : (1 <= inject_Z count)%Q)
    by (unfold Qle, inject_Z; simpl; lia).
  set (s := candidate_size width x) in *.
  rewrite py_div_ok by lra. cbn [bind].
  set (cx := (inject_Z width / s)%Q) in *.
  assert (Hcx0 : ~ (cx == 0)%Q) by lra.
  rewrite py_floordiv_ok, py_mod_ok by exact Hcx0. cbn [bind].
  set (q := (inject_Z count / cx)%Q).
  pose proof (Qfloor_le q) as Hfl.
  pose proof (Qlt_floor q) as Hfu.
  assert (Hq : (q * cx == inject_Z count)%Q) by (unfold q; field; exact Hcx0).
  assert (Hf0 : (0 <= inject_Z (Qfloor q))%Q).
  { change 0%Q with (inject_Z (Qfloor 0)). rewrite <- Zle_Qle.
    apply Qfloor_resp_le. unfold q. apply Qle_shift_div_l; lra. }
  destruct (Qltb 0 (inject_Z count - cx * inject_Z (Qfloor q))) eqn:Hr.
  - assert (H1 : (1 <= inject_Z (Qfloor q) + 1)%Q) by lra.
    rewrite py_div_ok by lra. cbn [bind].
    eexists _, _, _. split; [reflexivity|].
    repeat split; try lra; try reflexivity.
    rewrite inject_Z_plus in Hfu. change (inject_Z 1) with 1%Q in Hfu.
    rewrite <- Hq. apply Qmult_le_compat_r; lra.
  - apply Qltb_false in Hr.
    assert (H1 : (1 <= inject_Z (Qfloor q))%Q).
    { destruct (Z.eq_dec (Qfloor q) 0) as [E|E].
      - rewrite E in Hr. change (inject_Z 0) with 0%Q in Hr. lra.
      - change 0%Q with (inject_Z 0) in Hf0. rewrite <- Zle_Qle in Hf0.
        change 1%Q with (inject_Z 1). rewrite <- Zle_Qle. lia. }
    rewrite py_div_ok by lra. cbn [bind].
    eexists _, _, _. split; [reflexivity|].
    repeat split; try lra; try reflexivity.
Qed.

Lemma compute_grid_sentinel (count width height : Z) :
  1 <= count -> 0 < width ->
  grid_scan count width height (range 1 width) = (-1, -1)%Q ->
  exists cx cy sp,
    compute_grid count width height = Ok ((-1)%Q, cx, cy, sp)
    /\ (cx == - inject_Z width)%Q
    /\ (cy <= -1)%Q.
Proof.
  intros Hc Hw Hscan. unfold compute_grid. rewrite Hscan.
  pose proof (inject_Z_pos _ Hw) as Hwq.
  assert (Hcq : (1 <= inject_Z count)%Q)
    by (unfold Qle, inject_Z; simpl; lia).
  rewrite py_div_ok by lra. cbn [bind].
  set (cx := (inject_Z width / -1)%Q).
  assert (Hcx : (cx == - inject_Z width)%Q) by (unfold cx; field).
  rewrite py_floordiv_ok, py_mod_ok by lra. cbn [bind].
  set (q := (inject_Z count / cx)%Q).
  pose proof (Qfloor_le q) as Hfl.
  assert (Hq : (q * cx == inject_Z count)%Q) by (unfold q; field; lra).
  assert (Hneg : (q < 0)%Q).
  { apply Qnot_le_lt. intros H0. nra. }
  assert (Hf : (inject_Z (Qfloor q) <= -1)%Q).
  { assert (Qfloor q < 0)%Z.
    { rewrite Zlt_Qlt. change (inject_Z 0) with 0%Q. lra. }
    change (-1)%Q with (inject_Z (-1)). rewrite <- Zle_Qle. lia. }
  assert (Hr : Qltb 0 (inject_Z count - cx * inject_Z (Qfloor q)) = false).
  { apply Qltb_false. nra. }
  rewrite Hr. rewrite py_div_ok by lra. cbn [bind].
  eexists _, _, _. split; [reflexivity|]. split; [exact Hcx | exact Hf].
Qed.

(** ** compute_grid: the tile size and the rectangle *)

(** When no column count in [1 .. width-1] gives non-negative waste, the
    scan changes nothing and the layout is computed from the initial size
    -1: no exception is raised. *)
Lemma compute_grid_no_candidate (count width height : Z) :
  1 <= count -> 1 < width ->
  (forall x, 1 <= x < width -> (candidate_waste count width height x < 0)%Q) ->
  exists cx cy sp,
    compute_grid count width height = Ok ((-1)%Q, cx, cy, sp)
    /\ (cx == - inject_Z width)%Q
    /\ (cy <= -1)%Q.
Proof.
  intros Hc Hw Hall.
  destruct (scanned_grid_scan count width height (range 1 width))
    as [E _ | y Hy E Hpos].
  - apply compute_grid_sentinel; [lia | lia | exact E].
  - apply in_range in Hy. apply Hall in Hy. lra.
Qed.

Lemma all_candidates_overflow (count width height : Z) :
  forallb (fun x => Qltb (candidate_waste count width height x) 0)
          (range 1 width) = true ->
  forall x, In x (range 1 width) ->
            (candidate_waste count width height x < 0)%Q.
Proof.
  intros H x Hx. rewrite forallb_forall in H. now apply Qltb_true, H.
Qed.

(** C3: the code where no candidate has non-negative waste.  With 100
    tracks on a 2 x 2 rectangle, and with 50000 tracks on the 180 x 240
    rectangle that [poster] passes, the arguments are as the bound asks
    ([count >= 1], [width > 1], [height > 1]), every candidate overflows,
    the tile size that [compute_grid] returns is the initial -1, and
    [count * size^2] is greater than [width * height]: 100 > 4 and
    50000 > 43200. *)
Theorem compute_grid_size_overflows :
  (1 <= 100 /\ 1 < 2 /\ 1 < 2
   /\ (forall x, In x (range 1 2) -> (candidate_waste 100 2 2 x < 0)%Q)
   /\ exists s cx cy sp,
        compute_grid 100 2 2 = Ok (s, cx, cy, sp)
        /\ s = (-1)%Q
        /\ (inject_Z (2 * 2) < inject_Z 100 * s * s)%Q)
  /\ (1 <= 50000 /\ 1 < 180 /\ 1 < 240
      /\ (forall x, In x (range 1 180) ->
                    (candidate_waste 50000 180 240 x < 0)%Q)
      /\ exists s cx cy sp,
           compute_grid 50000 180 240 = Ok (s, cx, cy, sp)
           /\ s = (-1)%Q
           /\ (inject_Z (180 * 240) < inject_Z 50000 * s * s)%Q).
Proof.
  split; (do 3 (split; [lia|])); (split; [apply all_candidates_overflow;
                                          vm_compute; reflexivity|]).
  - exists (-1)%Q, (-2)%Q, (-50)%Q, (48 # 50).
    split; [vm_compute; reflexivity|]. split; reflexivity.
  - exists (-1)%Q, (-180)%Q, (-278)%Q, (38 # 278).
    split; [vm_compute; reflexivity|]. split; reflexivity.
Qed.

(** C4: the code where no candidate has non-negative waste.  With 100
    tracks on a 2 x 2 rectangle, and with 50000 tracks on the 180 x 240
    rectangle that [poster] passes, every candidate overflows and
    [compute_grid] raises nothing: it returns a layout with the tile size
    -1 and negative column and row counts. *)
Theorem compute_grid_silent_without_candidate :
  ((forall x, In x (range 1 2) -> (candidate_waste 100 2 2 x < 0)%Q)
   /\ compute_grid 100 2 2 = Ok ((-1)%Q, (-2)%Q, (-50)%Q, (48 # 50)))
  /\ ((forall x, In x (range 1 180) -> (candidate_waste 50000 180 240 x < 0)%Q)
      /\ compute_grid 50000 180 240
         = Ok ((-1)%Q, (-180)%Q, (-278)%Q, (38 # 278))).
Proof.
  split; (split; [apply all_candidates_overflow|]); vm_compute; reflexivity.
Qed.

(** C5: the code at 5 tracks on the 180 x 240 rectangle that [poster]
    passes.  The size 90 is selected with non-negative waste (2 columns),
    the 3 rows are 270 high, more than the 240 of the rectangle, and the
    row spacing is -10. *)
Theorem compute_grid_rows_exceed_height :
  (0 <= candidate_waste 5 180 240 2)%Q /\
  exists s cx cy sp,
    compute_grid 5 180 240 = Ok (s, cx, cy, sp)
    /\ (s == 90)%Q /\ (cx == 2)%Q /\ (cy == 3)%Q /\ (sp == -10)%Q
    /\ ~ (cy * s <= 240)%Q
    /\ (sp < 0)%Q.
Proof.
  split; [vm_compute; discriminate|].
  exists (180 # 2), (360 # 180), 3%Q, (-60 # 6).
  split; [vm_compute; reflexivity|].
  repeat split; try (vm_compute; reflexivity).
  intros H. vm_compute in H. apply H. reflexivity.
Qed.

(** ** Track.append *)

(** C8: merging [B] into the preceding session [A] concatenates polylines
    and file names with A's first, adds the lengths (so the sum is
    non-negative when both are), ORs the highlight flags and takes B's end
    time. *)
Theorem append_combines (A B : Track.t) :
  Track.polylines (Track.append A B) = Track.polylines A ++ Track.polylines B
  /\ Track.file_names (Track.append A B) = Track.file_names A ++ Track.file_names B
  /\ Track.length (Track.append A B) = (Track.length A + Track.length B)%Q
  /\ ((0 <= Track.length A)%Q -> (0 <= Track.length B)%Q ->
      (0 <= Track.length (Track.append A B))%Q)
  /\ Track.highlight (Track.append A B) = Track.highlight A || Track.highlight B
  /\ Track.end_time (Track.append A B) = Track.end_time B.
Proof.
  repeat split. simpl. intros HA HB. lra.
Qed.

Lemma append_combines_witness :
  (0 <= Track.length ends_at_noon)%Q
  /\ (0 <= Track.length (starts_at 12 30 0))%Q
  /\ (0 <= Track.length (Track.append ends_at_noon (starts_at 12 30 0)))%Q.
Proof.
  assert (HA : (0 <= Track.length ends_at_noon)%Q) by (vm_compute; discriminate).
  assert (HB : (0 <= Track.length (starts_at 12 30 0))%Q)
    by (vm_compute; discriminate).
  destruct (append_combines ends_at_noon (starts_at 12 30 0))
    as (_ & _ & _ & Hnonneg & _).
  split; [exact HA|]. split; [exact HB|]. exact (Hnonneg HA HB).
Defined.

(** ** The merge pass *)

Lemma merge_loop_app (ts1 ts2 : list Track.t) : forall st,
  merge_loop st (ts1 ++ ts2)
  = bind (merge_loop st ts1) (fun st' => merge_loop st' ts2).
Proof.
  induction ts1 as [|t ts1 IH]; intros st; simpl; [reflexivity|].
  destruct (merge_step st t) as [st'|e]; simpl; [apply IH | reflexivity].
Qed.

Lemma append_to_last_snoc (sessions : list Track.t) (s t : Track.t) :
  append_to_last (sessions ++ [s]) t = Ok (sessions ++ [Track.append s t]).
Proof.
  unfold append_to_last. rewrite rev_app_distr. simpl.
  now rewrite rev_involutive.
Qed.

(** One step from a state whose session list is not empty: the outcome is
    decided by the time distance alone. *)
Lemma merge_step_snoc (sessions : list Track.t) (s t : Track.t)
    (l st : datetime.t) :
  Track.start_time t = Some st ->
  merge_step (sessions ++ [s], Some l) t
  = Ok (if within_one_hour (datetime.total_seconds (datetime.sub st l))
        then sessions ++ [Track.append s t]
        else (sessions ++ [s]) ++ [t],
        Track.end_time t).
Proof.
  intros Hst. unfold merge_step, time_distance. rewrite Hst. cbn [bind].
  destruct (within_one_hour _); [|reflexivity].
  now rewrite append_to_last_snoc.
Qed.

(** After the first track the session list is never empty, and the last end
    time is that of the last track seen. *)
Lemma merge_loop_total (ts : list Track.t) : forall merged last,
  Forall has_start ts ->
  (last = None \/ merged <> []) ->
  exists merged' last',
    merge_loop (merged, last) ts = Ok (merged', last')
    /\ (last' = None \/ merged' <> [])
    /\ (ts <> [] -> merged' <> [] /\ last' = Track.end_time (List.last ts Track.init)).
Proof.
  induction ts as [|t ts IH]; intros merged last Hall Hinv.
  - exists merged, last. repeat split; auto. congruence.
  - inversion Hall as [|? ? Ht Hts]; subst.
    destruct (Track.start_time t) as [st|] eqn:Hst; [|now elim Ht].
    assert (Hstep : exists merged1, merge_step (merged, last) t
                                    = Ok (merged1, Track.end_time t)
                                    /\ merged1 <> []).
    { destruct last as [l|].
      - destruct Hinv as [|Hne]; [discriminate|].
        destruct (exists_last Hne) as (sessions & s & ->).
        rewrite (merge_step_snoc _ _ _ _ _ Hst).
        eexists. split; [reflexivity|].
        destruct (within_one_hour _); intros E;
          apply app_eq_nil in E as [_ E]; discriminate.
      - eexists. split; [reflexivity|]. intros E.
        apply app_eq_nil in E as [_ E]. discriminate. }
    destruct Hstep as (merged1 & Hstep & Hne1).
    destruct (IH merged1 (Track.end_time t) Hts (or_intror Hne1))
      as (merged' & last' & Hloop & Hinv' & Hlast).
    exists merged', last'. cbn [merge_loop]. rewrite Hstep. cbn [bind].
    split; [exact Hloop|]. split; [exact Hinv'|]. intros _.
    destruct ts as [|u ts'].
    + simpl in Hloop. inversion Hloop; subst. auto.
    + destruct Hlast as [Hm Hl]; [discriminate|]. split; [exact Hm|].
      exact Hl.
Qed.

(** The time distance across the end of a leap-year February and across
    the end of a year. *)
Example sub_across_leap_day :
  datetime.sub (datetime.mk 2016 3 1 0 10 0 0) (datetime.mk 2016 2 29 23 30 0 0)
  = 2400 * 1000000.
Proof. reflexivity. Qed.

Example sub_across_new_year :
  datetime.sub (datetime.mk 2017 1 1 0 0 0 250000)
               (datetime.mk 2016 12 31 23 59 59 0)
  = 1250000.
Proof. reflexivity. Qed.

Lemma within_one_hour_iff (dt : Q) :
  within_one_hour dt = true <-> (0 < dt)%Q /\ (dt < 3600)%Q.
Proof.
  unfold within_one_hour. rewrite andb_true_iff, !Qltb_true. reflexivity.
Qed.

Lemma snoc_neq_snoc2 {A : Type} (xs : list A) (x y z : A) :
  xs ++ [x] <> xs ++ [y; z].
Proof.
  intros E. apply (f_equal (@List.length A)) in E.
  rewrite !length_app in E. simpl in E. lia.
Qed.

(** C1: let [a] and [b] be adjacent in the sorted list, [a] ending at [l]
    and [b] starting at [st], with [dt] the seconds from [l] to [st].  The
    pass over the tracks up to [a] ends with some session [s]; the pass
    over the tracks up to [b] merges [b] into [s] if and only if
    [0 < dt < 3600], and opens a new session for [b] if and only if not. *)
Theorem merge_iff_within_one_hour (before : list Track.t) (a b : Track.t)
    (l st : datetime.t) :
  Forall has_start (before ++ [a]) ->
  Track.end_time a = Some l ->
  Track.start_time b = Some st ->
  let dt := datetime.total_seconds (datetime.sub st l) in
  exists sessions s,
    merge_tracks (before ++ [a]) = Ok (sessions ++ [s])
    /\ (merge_tracks (before ++ [a; b]) = Ok (sessions ++ [Track.append s b])
        <-> (0 < dt)%Q /\ (dt < 3600)%Q)
    /\ (merge_tracks (before ++ [a; b]) = Ok (sessions ++ [s; b])
        <-> ~ ((0 < dt)%Q /\ (dt < 3600)%Q)).
Proof.
  intros Hall Hl Hst dt.
  destruct (merge_loop_total (before ++ [a]) [] None Hall (or_introl eq_refl))
    as (merged & last & Hloop & _ & Hlast).
  destruct Hlast as [Hne Hlast].
  { intros E. apply app_eq_nil in E as [_ E]. discriminate. }
  rewrite last_last, Hl in Hlast. subst last.
  destruct (exists_last Hne) as (sessions & s & ->).
  exists sessions, s.
  assert (Hb : merge_tracks (before ++ [a; b])
               = Ok (if within_one_hour dt
                     then sessions ++ [Track.append s b]
                     else sessions ++ [s; b])).
  { unfold merge_tracks.
    replace (before ++ [a; b]) with ((before ++ [a]) ++ [b])
      by now rewrite <- app_assoc.
    rewrite merge_loop_app, Hloop. cbn [bind merge_loop].
    rewrite (merge_step_snoc _ _ _ _ _ Hst). cbn [bind fst].
    fold dt. destruct (within_one_hour dt); [reflexivity|].
    now rewrite <- app_assoc. }
  split; [unfold merge_tracks; now rewrite Hloop|].
  rewrite Hb, <- within_one_hour_iff.
  destruct (within_one_hour dt); split; split; intros H;
    try reflexivity; try congruence; try (now elim H);
    inversion H as [E];
    first [ now apply snoc_neq_snoc2 in E
          | symmetry in E; now apply snoc_neq_snoc2 in E ].
Qed.

Lemma merge_iff_within_one_hour_witness :
  let a := recorded "a.gpx" (on_may_first 11 0 0) (on_may_first 12 0 0) 5000 in
  let b := recorded "b.gpx" (on_may_first 12 30 0) (on_may_first 13 0 0) 700 in
  let dt := datetime.total_seconds
              (datetime.sub (on_may_first 12 30 0) (on_may_first 12 0 0)) in
  exists sessions s,
    merge_tracks ([] ++ [a]) = Ok (sessions ++ [s])
    /\ (merge_tracks ([] ++ [a; b]) = Ok (sessions ++ [Track.append s b])
        <-> (0 < dt)%Q /\ (dt < 3600)%Q)
    /\ (merge_tracks ([] ++ [a; b]) = Ok (sessions ++ [s; b])
        <-> ~ ((0 < dt)%Q /\ (dt < 3600)%Q)).
Proof.
  intros a b.
  apply (merge_iff_within_one_hour [] a b
           (on_may_first 12 0 0) (on_may_first 12 30 0)).
  - repeat constructor. discriminate.
  - reflexivity.
  - reflexivity.
Defined.

Example merge_gap_0 :
  merge_tracks [ends_at_noon; starts_at 12 0 0]
  = Ok [ends_at_noon; starts_at 12 0 0].
Proof. vm_compute. reflexivity. Qed.

Example merge_gap_1800 :
  merge_tracks [ends_at_noon; starts_at 12 30 0]
  = Ok [Track.append ends_at_noon (starts_at 12 30 0)].
Proof. vm_compute. reflexivity. Qed.

Example merge_gap_3600 :
  merge_tracks [ends_at_noon; starts_at 13 0 0]
  = Ok [ends_at_noon; starts_at 13 0 0].
Proof. vm_compute. reflexivity. Qed.

Example merge_gap_3601 :
  merge_tracks [ends_at_noon; starts_at 13 0 1]
  = Ok [ends_at_noon; starts_at 13 0 1].
Proof. vm_compute. reflexivity. Qed.

(** ** strftime and strptime *)

Lemma digit_val_digit (n : Z) :
  datetime.digit_val (datetime.digit n) = Some (n mod 10).
Proof.
  unfold datetime.digit_val, datetime.digit.
  pose proof (Z.mod_pos_bound n 10 ltac:(lia)) as Hn.
  rewrite nat_ascii_embedding by lia.
  replace (Z.of_nat (48 + Z.to_nat (n mod 10))) with (48 + n mod 10) by lia.
  destruct (48 <=? 48 + n mod 10) eqn:E1; [|lia].
  destruct (48 + n mod 10 <=? 57) eqn:E2; [|lia].
  simpl. f_equal. lia.
Qed.

Lemma number_pad2 (n : Z) :
  0 <= n < 100 -> datetime.number (datetime.pad2 n) 0 = Some n.
Proof.
  intros Hn. unfold datetime.pad2, datetime.number.
  rewrite !digit_val_digit. f_equal. Z.div_mod_to_equations. lia.
Qed.

Lemma number_pad4 (n : Z) :
  0 <= n < 10000 -> datetime.number (datetime.pad4 n) 0 = Some n.
Proof.
  intros Hn. unfold datetime.pad4, datetime.number.
  rewrite !digit_val_digit. f_equal. Z.div_mod_to_equations. lia.
Qed.

Lemma days_in_month_le (y m : Z) : datetime.days_in_month y m <= 31.
Proof.
  unfold datetime.days_in_month.
  destruct ((m =? 2) && datetime.is_leap y); [lia|].
  destruct (Z.to_nat m) as [|[|[|[|[|[|[|[|[|[|[|[|[|k]]]]]]]]]]]]];
    simpl; try lia.
  destruct k; simpl; lia.
Qed.

(** Reading back what [strftime] wrote gives the datetime to the second. *)
Lemma strptime_strftime (d : datetime.t) :
  datetime.valid d = true ->
  datetime.strptime (datetime.strftime d) = Ok (datetime.whole_second d).
Proof.
  intros Hv. pose proof Hv as Hv'. unfold datetime.valid in Hv'.
  repeat (apply andb_prop in Hv' as [Hv' ?]).
  pose proof (days_in_month_le (datetime.year d) (datetime.month d)).
  unfold datetime.strptime, datetime.strftime.
  rewrite list_ascii_of_string_of_list_ascii.
  change (datetime.number [datetime.digit (datetime.year d / 1000);
                           datetime.digit (datetime.year d / 100);
                           datetime.digit (datetime.year d / 10);
                           datetime.digit (datetime.year d)] 0)
    with (datetime.number (datetime.pad4 (datetime.year d)) 0).
  cbn [app datetime.pad4 datetime.pad2 Ascii.eqb Bool.eqb andb].
  fold (datetime.pad4 (datetime.year d)) (datetime.pad2 (datetime.month d))
       (datetime.pad2 (datetime.day d)) (datetime.pad2 (datetime.hour d))
       (datetime.pad2 (datetime.minute d)) (datetime.pad2 (datetime.second d)).
  rewrite number_pad4 by lia. rewrite !number_pad2 by lia.
  replace (datetime.valid _) with true; [reflexivity|].
  symmetry. unfold datetime.valid in *. simpl.
  rewrite !andb_true_iff in *. repeat split; try lia; tauto.
Qed.

Lemma whole_second_id (d : datetime.t) :
  datetime.microsecond d = 0 -> datetime.whole_second d = d.
Proof. destruct d; simpl. now intros ->. Qed.

(** ** The cache: store_cache followed by load_cache *)

Lemma point_of_point_data (p : Q * Q) : Track.point_of (Track.point_data p) = Ok p.
Proof. destruct p. reflexivity. Qed.

Lemma map_result_point_data (line : list (Q * Q)) :
  map_result Track.point_of (map Track.point_data line) = Ok line.
Proof.
  induction line as [|p line IH]; cbn [map map_result]; [reflexivity|].
  now rewrite point_of_point_data, IH.
Qed.

Lemma load_segments_lines (lines : list (list (Q * Q))) : forall self,
  Track.load_segments self (map (fun line => JArr (map Track.point_data line)) lines)
  = (Track.set_polylines (Track.polylines self ++ lines) self, Ok tt).
Proof.
  induction lines as [|line lines IH]; intros self;
    cbn [map Track.load_segments iter bind].
  - rewrite app_nil_r. now destruct self.
  - rewrite map_result_point_data. rewrite IH. unfold Track.set_polylines.
    cbn [Track.polylines Track.file_names Track.start_time Track.end_time
         Track.length Track.highlight].
    now rewrite <- app_assoc.
Qed.

(** What [load_cache] makes of an entry written by [store_cache]. *)
Lemma load_data_stored (self : Track.t) (st et : datetime.t) (len : Q)
    (lines : list (list (Q * Q))) :
  datetime.valid st = true -> datetime.valid et = true ->
  Track.load_data self
    (JObj [("start"%string, JStr (datetime.strftime st));
           ("end"%string, JStr (datetime.strftime et));
           ("length"%string, JNum len);
           ("segments"%string,
            JArr (map (fun line => JArr (map Track.point_data line)) lines))])
  = (Track.mk (Track.file_names self) lines
       (Some (datetime.whole_second st)) (Some (datetime.whole_second et))
       len (Track.highlight self),
     Ok tt).
Proof.
  intros Hst Het. unfold Track.load_data.
  cbn [getitem assoc String.eqb Ascii.eqb Bool.eqb bind strptime float iter].
  rewrite (strptime_strftime st Hst), (strptime_strftime et Het).
  now rewrite load_segments_lines.
Qed.




(** ** load_gpx with a cache entry that fails to load *)

(** C6: the code at a cache entry that fails to load after its first
    segment.  [load_cache] raises [KeyError], [load_gpx] raises nothing and
    parses the file again, but the Track keeps the polyline that
    [load_cache] had appended: its polylines are not those of the Track
    loaded without a cache entry.  The other fields agree.  The entry that
    [store_cache] then writes has the polylines of this Track, and loads
    without an exception from then on. *)
Theorem load_gpx_damaged_entry :
  let cache : cache_dir := {[ "c0ffee"%string := Json damaged_entry ]} in
  snd (Track.load_cache Track.init "c0ffee" cache) = Raise KeyError
  /\ exists t t0 c c0,
       Track.load_gpx Track.init "a.gpx" recording cache = (t, Ok tt, c)
       /\ Track.load_gpx Track.init "a.gpx" recording ∅ = (t0, Ok tt, c0)
       /\ Track.polylines t0 = [[(3, 4); (5, 6)]%Q]
       /\ Track.polylines t = [[(1, 2)]; [(3, 4); (5, 6)]]%Q
       /\ Track.polylines t <> Track.polylines t0
       /\ Track.start_time t = Track.start_time t0
       /\ Track.end_time t = Track.end_time t0
       /\ Track.length t = Track.length t0
       /\ Track.file_names t = Track.file_names t0
       /\ Track.load_gpx Track.init "a.gpx" recording c = (t, Ok tt, c).
Proof.
  intros cache. split; [vm_compute; reflexivity|].
  eexists _, _, _, _.
  split; [vm_compute; reflexivity|].
  split; [vm_compute; reflexivity|].
  repeat split; try (vm_compute; reflexivity). discriminate.
Qed.

(** Whatever [load_cache] raised, [load_gpx] goes on with
    [load_gpx_no_cache] on the object as [load_cache] left it. *)
Lemma load_gpx_after_failed_load (self self' : Track.t) (name : string)
    (file : gpx_file) (cache : cache_dir) (e : exn) :
  cache !! sha256 file <> None ->
  Track.load_cache self (sha256 file) cache = (self', Raise e) ->
  Track.load_gpx self name file cache
  = Track.load_gpx_no_cache self' name file cache.
Proof.
  intros Hfile Hload. unfold Track.load_gpx.
  destruct (cache !! sha256 file); [|congruence]. now rewrite Hload.
Qed.

(** [load_gpx_no_cache] assigns every field but [polylines], to which it
    appends: of the object it starts from, only the polylines are left in
    the Track that it builds. *)
Lemma load_gpx_no_cache_fields (self : Track.t) (name : string)
    (file : gpx_file) (cache : cache_dir) (g : GPX) :
  parse file = Ok g ->
  let t := fst (fst (Track.load_gpx_no_cache self name file cache)) in
  Track.file_names t = [name]
  /\ Track.start_time t = fst (get_time_bounds g)
  /\ Track.end_time t = snd (get_time_bounds g)
  /\ Track.length t = length_2d g
  /\ Track.polylines t = Track.polylines self ++ segments g.
Proof.
  intros Hparse. unfold Track.load_gpx_no_cache. rewrite Hparse.
  destruct (Track.store_cache _ _ _) as [r cache']. cbn. repeat split.
Qed.

(** An entry that is not JSON at all leaves [self] as it was, and the
    Track is the one loaded without a cache entry. *)
Lemma load_gpx_not_json (self : Track.t) (name : string) (file : gpx_file)
    (cache : cache_dir) :
  cache !! sha256 file = Some NotJson ->
  Track.load_gpx self name file cache
  = Track.load_gpx_no_cache self name file cache.
Proof.
  intros H. unfold Track.load_gpx, Track.load_cache. now rewrite H.
Qed.

(** ** load_tracks: what passes the filters *)

Section Filters.

Variable year : Z.

Lemma kept_started (t : Track.t) : kept year t -> started year t.
Proof. now intros [_ H]. Qed.

Lemma started_has_start (t : Track.t) : started year t -> has_start t.
Proof. intros (st & H & _). unfold has_start. congruence. Qed.

Lemma load_one_kept (highlight_filenames : list string)
    (st : list Track.t * cache_dir) (nf : string * gpx_file) :
  Forall (kept year) (fst st) ->
  Forall (kept year) (fst (load_one year highlight_filenames st nf)).
Proof.
  destruct st as [tracks cache], nf as [name file]. simpl. intros Hall.
  destruct (Track.load_gpx Track.init name file cache) as [[t [[]|e]] cache'];
    [|exact Hall].
  set (t' := if contains highlight_filenames name
             then Track.set_is_highlight true t else t).
  destruct (Qeq_bool (Track.length t') 0) eqn:Hlen; [exact Hall|].
  destruct (Track.start_time t') as [s|] eqn:Hs; [|exact Hall].
  destruct (datetime.year s =? year) eqn:Hy; simpl; [|exact Hall].
  apply Forall_app. split; [exact Hall|].
  constructor; [|constructor]. split.
  - now apply Qeq_bool_false.
  - exists s. split; [exact Hs|]. now apply Z.eqb_eq.
Qed.

Lemma load_all_kept (highlight_filenames : list string)
    (files : list (string * gpx_file)) : forall st,
  Forall (kept year) (fst st) ->
  Forall (kept year) (fst (fold_left (load_one year highlight_filenames) files st)).
Proof.
  induction files as [|nf files IH]; intros st Hall; simpl; [exact Hall|].
  apply IH, load_one_kept, Hall.
Qed.

Lemma insert_sorted_Forall (P : Track.t -> Prop) (t : Track.t)
    (sorted : list Track.t) :
  P t -> Forall P sorted -> Forall P (insert_sorted t sorted).
Proof.
  intros Ht. induction 1 as [|u rest Hu Hrest IH]; simpl.
  - now constructor.
  - destruct (start_ltb t u); repeat constructor; assumption.
Qed.

Lemma sorted_by_start_time_Forall (P : Track.t -> Prop) (tracks : list Track.t) :
  Forall P tracks -> Forall P (sorted_by_start_time tracks).
Proof.
  unfold sorted_by_start_time.
  assert (H : forall acc, Forall P acc -> Forall P tracks ->
                Forall P (fold_left (fun acc t => insert_sorted t acc) tracks acc)).
  { induction tracks as [|t tracks IH]; intros acc Hacc Hts; simpl; [exact Hacc|].
    inversion Hts; subst. apply IH; [|assumption].
    now apply insert_sorted_Forall. }
  apply H. constructor.
Qed.

Lemma append_to_last_started (merged merged' : list Track.t) (t : Track.t) :
  Forall (started year) merged ->
  append_to_last merged t = Ok merged' ->
  Forall (started year) merged'.
Proof.
  intros Hall. unfold append_to_last.
  destruct (rev merged) as [|m before] eqn:E; [discriminate|].
  intros H. inversion H; subst merged'. clear H.
  apply (f_equal (@rev Track.t)) in E. rewrite rev_involutive in E.
  simpl in E. subst merged. apply Forall_app in Hall as [Hb Hm].
  apply Forall_app. split; [exact Hb|].
  inversion Hm; subst. constructor; [|constructor]. assumption.
Qed.

Lemma merge_step_started (merged merged' : list Track.t)
    (last last' : option datetime.t) (t : Track.t) :
  Forall (started year) merged -> started year t ->
  merge_step (merged, last) t = Ok (merged', last') ->
  Forall (started year) merged'.
Proof.
  intros Hall Ht. unfold merge_step.
  assert (Hnew : Forall (started year) (merged ++ [t])).
  { apply Forall_app. split; [exact Hall|]. now repeat constructor. }
  destruct last as [l|]; cbn [bind].
  - destruct (time_distance t l) as [dt|e]; [|discriminate]. cbn [bind].
    destruct (within_one_hour dt).
    + destruct (append_to_last merged t) as [m|e] eqn:E; [|discriminate].
      cbn [bind]. intros H. inversion H; subst.
      exact (append_to_last_started _ _ _ Hall E).
    + cbn [bind]. intros H. now inversion H; subst.
  - intros H. now inversion H; subst.
Qed.

Lemma merge_loop_started (ts : list Track.t) : forall merged merged' last last',
  Forall (started year) merged -> Forall (started year) ts ->
  merge_loop (merged, last) ts = Ok (merged', last') ->
  Forall (started year) merged'.
Proof.
  induction ts as [|t ts IH]; intros merged merged' last last' Hall Hts;
    cbn [merge_loop].
  - intros H. now inversion H; subst.
  - inversion Hts as [|? ? Ht Hrest]; subst.
    destruct (merge_step (merged, last) t) as [[m1 l1]|e] eqn:E;
      [|discriminate].
    cbn [bind]. apply IH; [|exact Hrest].
    exact (merge_step_started _ _ _ _ _ Hall Ht E).
Qed.

(** The merge pass raises nothing on tracks that all have a start time,
    and every session starts in the requested year when every track does. *)
Lemma merge_tracks_started (ts : list Track.t) :
  Forall (started year) ts ->
  exists merged, merge_tracks ts = Ok merged /\ Forall (started year) merged.
Proof.
  intros Hts.
  destruct (merge_loop_total ts [] None) as (merged & last & Hloop & _).
  { eapply List.Forall_impl; [|exact Hts]. apply started_has_start. }
  { now left. }
  exists merged. unfold merge_tracks. rewrite Hloop. split; [reflexivity|].
  eapply merge_loop_started; [constructor | exact Hts | exact Hloop].
Qed.

End Filters.

(** C7: [load_tracks] raises only for a path that is no directory; every
    Track of its output has a length of at least 1000 (so not 0) and a
    start time set, in the requested year. *)
Theorem load_tracks_filters (dirs : gmap string (list dir_entry))
    (cache : cache_dir) (base_dir : string) (year : Z)
    (highlight_filenames : list string) :
  (dirs !! base_dir = None
   /\ fst (load_tracks dirs cache base_dir year highlight_filenames)
      = Raise NotADirectory)
  \/ (exists out,
        fst (load_tracks dirs cache base_dir year highlight_filenames) = Ok out
        /\ Forall (fun t =>
                     (1000 <= Track.length t)%Q
                     /\ ~ (Track.length t == 0)%Q
                     /\ exists st, Track.start_time t = Some st
                                   /\ datetime.year st = year) out).
Proof.
  unfold load_tracks, list_gpx_files.
  destruct (dirs !! base_dir) as [entries|]; [right | left; now split].
  set (files := omap _ entries).
  pose proof (load_all_kept year highlight_filenames files ([], cache)
                (List.Forall_nil _)) as Hkept.
  destruct (fold_left _ files ([], cache)) as [tracks cache'].
  simpl in Hkept.
  destruct (merge_tracks_started year (sorted_by_start_time tracks))
    as (merged & Hmerge & Hstarted).
  { apply sorted_by_start_time_Forall.
    eapply List.Forall_impl; [|exact Hkept]. apply kept_started. }
  rewrite Hmerge. cbn [bind fst]. eexists. split; [reflexivity|].
  apply List.Forall_forall. intros t Ht. apply filter_In in Ht as [Ht Hlen].
  apply Qle_bool_iff in Hlen. unfold min_length in Hlen.
  rewrite List.Forall_forall in Hstarted.
  split; [exact Hlen|]. split; [lra|]. now apply Hstarted.
Qed.

Example load_tracks_scenario :
  fst (load_tracks {[ "runs"%string := runs ]} ∅ "runs" 2016 ["b.gpx"%string])
  = Ok [ Track.mk ["a.gpx"; "b.gpx"]%string
           [[(1, 1); (2, 2)]; [(3, 3); (4, 4)]]%Q
           (Some (on_may_first 9 0 0)) (Some (on_may_first 10 45 0)) 1500 true;
         Track.mk ["c.gpx"%string] [[(5, 5); (6, 6)]%Q]
           (Some (on_may_first 12 0 0)) (Some (on_may_first 13 0 0)) 2500 false ].
Proof. vm_compute. reflexivity. Qed.

Example load_tracks_not_a_directory :
  fst (load_tracks {[ "runs"%string := runs ]} ∅ "walks" 2016 [])
  = Raise NotADirectory.
Proof. vm_compute. reflexivity. Qed.

(** ** latlng2xy *)

Local Open Scope R_scope.

Lemma mercator_angle_bounds (lat : R) :
  -90 < lat -> lat < 90 ->
  0 < PI / 4 * (1 + lat / 90) < PI / 2.
Proof.
  intros Hlo Hhi. pose proof PI_RGT_0 as Hpi.
  assert (H1 : 0 < 1 + lat / 90 < 2) by lra.
  split; nra.
Qed.

Lemma latlng2xy_defined (lat lng : R) :
  -90 < lat -> lat < 90 ->
  latlng2xy lat lng
  = Ok (lng / 180 + 1, 1 / 2 - ln (tan (PI / 4 * (1 + lat / 90))) / PI).
Proof.
  intros Hlo Hhi. unfold latlng2xy, math_log.
  destruct (mercator_angle_bounds lat Hlo Hhi) as [H0 H1].
  pose proof (tan_gt_0 _ H0 H1) as Htan.
  destruct (Rlt_dec 0 (tan (PI / 4 * (1 + lat / 90)))); [reflexivity|].
  contradiction.
Qed.

Lemma latlng2xy_x (lat lng x y : R) :
  latlng2xy lat lng = Ok (x, y) -> x = lng / 180 + 1.
Proof.
  unfold latlng2xy. destruct (math_log _); cbn [bind]; [|discriminate].
  intros H. now inversion H.
Qed.

Lemma mercator_y_decreasing (lat1 lat2 : R) :
  -90 < lat1 -> lat1 < lat2 -> lat2 < 90 ->
  1 / 2 - ln (tan (PI / 4 * (1 + lat2 / 90))) / PI
  < 1 / 2 - ln (tan (PI / 4 * (1 + lat1 / 90))) / PI.
Proof.
  intros Hlo Hlt Hhi.
  assert (Hhi1 : lat1 < 90) by lra. assert (Hlo2 : -90 < lat2) by lra.
  destruct (mercator_angle_bounds lat1 Hlo Hhi1) as [Ha1 Hb1].
  destruct (mercator_angle_bounds lat2 Hlo2 Hhi) as [Ha2 Hb2].
  pose proof PI_RGT_0 as Hpi.
  assert (Htan : tan (PI / 4 * (1 + lat1 / 90)) < tan (PI / 4 * (1 + lat2 / 90))).
  { apply tan_increasing; [lra | nra | lra]. }
  assert (Hln : ln (tan (PI / 4 * (1 + lat1 / 90)))
                < ln (tan (PI / 4 * (1 + lat2 / 90)))).
  { apply ln_increasing; [now apply tan_gt_0 | exact Htan]. }
  assert (Hdiv : ln (tan (PI / 4 * (1 + lat1 / 90))) / PI
                 < ln (tan (PI / 4 * (1 + lat2 / 90))) / PI).
  { apply Rmult_lt_compat_r; [now apply Rinv_0_lt_compat | exact Hln]. }
  lra.
Qed.

(** C9: for a fixed latitude the x output is strictly increasing in [lng];
    for latitudes in the open interval (-90, 90) the projection is defined
    and the y output is strictly decreasing in [lat]. *)
Theorem latlng2xy_monotone :
  (forall lat lng1 lng2 x1 y1 x2 y2,
      latlng2xy lat lng1 = Ok (x1, y1) ->
      latlng2xy lat lng2 = Ok (x2, y2) ->
      lng1 < lng2 -> x1 < x2)
  /\ (forall lat1 lat2 lng1 lng2,
        -90 < lat1 -> lat1 < lat2 -> lat2 < 90 ->
        exists x1 y1 x2 y2,
          latlng2xy lat1 lng1 = Ok (x1, y1)
          /\ latlng2xy lat2 lng2 = Ok (x2, y2)
          /\ y1 = 1 / 2 - ln (tan (PI / 4 * (1 + lat1 / 90))) / PI
          /\ y2 = 1 / 2 - ln (tan (PI / 4 * (1 + lat2 / 90))) / PI
          /\ y2 < y1).
Proof.
  split.
  - intros lat lng1 lng2 x1 y1 x2 y2 H1 H2 Hlt.
    apply latlng2xy_x in H1, H2. subst. lra.
  - intros lat1 lat2 lng1 lng2 Hlo Hlt Hhi.
    assert (Hhi1 : lat1 < 90) by lra. assert (Hlo2 : -90 < lat2) by lra.
    eexists _, _, _, _.
    split; [apply latlng2xy_defined; assumption|].
    split; [apply latlng2xy_defined; assumption|].
    split; [reflexivity|]. split; [reflexivity|].
    now apply mercator_y_decreasing.
Qed.

Lemma latlng2xy_monotone_witness :
  (exists x1 y1 x2 y2,
      latlng2xy 0 10 = Ok (x1, y1) /\ latlng2xy 0 20 = Ok (x2, y2) /\ x1 < x2)
  /\ (exists x1 y1 x2 y2,
        latlng2xy 0 10 = Ok (x1, y1) /\ latlng2xy 45 10 = Ok (x2, y2) /\ y2 < y1).
Proof.
  destruct latlng2xy_monotone as [Hx Hy]. split.
  - eexists _, _, _, _.
    split; [apply latlng2xy_defined; lra|].
    split; [apply latlng2xy_defined; lra|].
    eapply (Hx 0 10 20); [apply latlng2xy_defined; lra ..| lra].
  - destruct (Hy 0 45 10 10) as (x1 & y1 & x2 & y2 & H1 & H2 & _ & _ & Hlt);
      try lra.
    exists x1, y1, x2, y2. auto.
Defined.

(** ** compute_bounds *)

Lemma compute_bounds_concat (polylines : list (list (R * R))) : forall b,
  fold_left (fun b line => fold_left bounds_step line b) polylines b
  = fold_left bounds_step (concat polylines) b.
Proof.
  induction polylines as [|line polylines IH]; intros b; simpl; [reflexivity|].
  now rewrite fold_left_app, IH.
Qed.

Lemma bounds_step_ordered (b : option (R * R * R * R)) (p : R * R) :
  ordered_bounds b -> ordered_bounds (bounds_step b p).
Proof.
  destruct p as [x y], b as [[[[min_x min_y] max_x] max_y]|]; simpl.
  - intros [Hx Hy].
    pose proof (Rmin_l x min_x). pose proof (Rmax_l x max_x).
    pose proof (Rmin_l y min_y). pose proof (Rmax_l y max_y). lra.
  - intros _. lra.
Qed.

Lemma bounds_fold_ordered (pts : list (R * R)) : forall b,
  ordered_bounds b -> ordered_bounds (fold_left bounds_step pts b).
Proof.
  induction pts as [|p pts IH]; intros b Hb; simpl; [exact Hb|].
  apply IH, bounds_step_ordered, Hb.
Qed.

Lemma compute_bounds_ordered (polylines : list (list (R * R))) :
  ordered_bounds (compute_bounds polylines).
Proof.
  unfold compute_bounds. rewrite compute_bounds_concat.
  apply bounds_fold_ordered. exact I.
Qed.

Lemma bounds_step_at_x (x0 : R) (b : option (R * R * R * R)) (p : R * R) :
  fst p = x0 -> bounds_at_x x0 b ->
  bounds_at_x x0 (bounds_step b p) /\ bounds_step b p <> None.
Proof.
  destruct p as [x y], b as [[[[min_x min_y] max_x] max_y]|]; simpl;
    intros -> H.
  - destruct H as [-> ->]. split; [|discriminate].
    split; [apply Rmin_left | apply Rmax_left]; lra.
  - split; [split; reflexivity | discriminate].
Qed.

Lemma bounds_fold_at_x (x0 : R) (pts : list (R * R)) : forall b,
  (forall p, In p pts -> fst p = x0) ->
  bounds_at_x x0 b ->
  (b <> None \/ pts <> []) ->
  bounds_at_x x0 (fold_left bounds_step pts b)
  /\ fold_left bounds_step pts b <> None.
Proof.
  induction pts as [|p pts IH]; intros b Hall Hb Hne; simpl.
  - split; [exact Hb|]. destruct Hne as [H|H]; [exact H | congruence].
  - destruct (bounds_step_at_x x0 b p) as [H1 H2];
      [apply Hall; now left | exact Hb |].
    apply IH; [|exact H1 | now left].
    intros q Hq. apply Hall. now right.
Qed.

Lemma bounds_fold_None (pts : list (R * R)) : forall b,
  fold_left bounds_step pts b = None -> b = None /\ pts = [].
Proof.
  induction pts as [|p pts IH]; intros b H; cbn [fold_left] in H.
  - now split.
  - apply IH in H as [H _].
    destruct p as [x y], b as [[[[min_x min_y] max_x] max_y]|]; discriminate.
Qed.

(** ** draw_track *)

Lemma map_result_ok {A B : Type} (f : A -> result B) (g : A -> B) (xs : list A) :
  (forall x, In x xs -> f x = Ok (g x)) ->
  map_result f xs = Ok (map g xs).
Proof.
  induction xs as [|x xs IH]; intros H; cbn [map_result map]; [reflexivity|].
  rewrite (H x) by now left. cbn [bind].
  rewrite IH by (intros y Hy; apply H; now right). reflexivity.
Qed.

Lemma project_lines (polylines : list (list (Q * Q))) :
  (forall p, In p (concat polylines) -> -90 < Q2R (fst p) < 90) ->
  map_result (map_result project) polylines = Ok (map (map projected) polylines).
Proof.
  intros Hlat. apply map_result_ok. intros line Hline.
  apply map_result_ok. intros p Hp. unfold project, projected.
  destruct (Hlat p) as [Hlo Hhi].
  { apply in_concat. exists line. now split. }
  now apply latlng2xy_defined.
Qed.

(** Drawing goes through when the bounds have an extent in both axes and
    the tile has a height. *)
Lemma draw_track_ok (track : Track.t) (x_offset y_offset width height : R)
    (lines : list (list (R * R))) (min_x min_y max_x max_y : R) :
  map_result (map_result project) (Track.polylines track) = Ok lines ->
  compute_bounds lines = Some (min_x, min_y, max_x, max_y) ->
  min_x < max_x -> min_y < max_y -> height <> 0 ->
  exists drawn, draw_track track x_offset y_offset width height = Ok drawn.
Proof.
  intros Hlines Hb Hx Hy Hh. unfold draw_track. rewrite Hlines. cbn [bind].
  rewrite Hb. unfold R_div.
  destruct (Req_dec_T (max_x - min_x) 0); [lra|]. cbn [bind].
  destruct (Req_dec_T height 0); [contradiction|]. cbn [bind].
  destruct (Req_dec_T (max_y - min_y) 0); [lra|]. cbn [bind].
  destruct (Rlt_dec _ _); cbn [bind]; eexists; reflexivity.
Qed.

Lemma map_result_In {A B : Type} (f : A -> result B) (xs : list A) :
  forall ys, map_result f xs = Ok ys ->
  List.length ys = List.length xs
  /\ forall y, In y ys -> exists x, In x xs /\ f x = Ok y.
Proof.
  induction xs as [|x xs IH]; intros ys; cbn [map_result].
  - intros H. inversion H; subst. split; [reflexivity | intros y []].
  - destruct (f x) as [y0|e] eqn:Hx; cbn [bind]; [|discriminate].
    destruct (map_result f xs) as [ys0|e]; cbn [bind]; [|discriminate].
    intros H. inversion H; subst. destruct (IH ys0 eq_refl) as [Hlen Hin].
    split; [simpl; now rewrite Hlen|].
    intros y [<-|Hy].
    + exists x. split; [now left | exact Hx].
    + destruct (Hin y Hy) as (x' & Hx' & Hf). exists x'.
      split; [now right | exact Hf].
Qed.

Lemma map_result_raise {A B : Type} (f : A -> result B) (xs : list A) (e : exn) :
  map_result f xs = Raise e -> exists x, In x xs /\ f x = Raise e.
Proof.
  induction xs as [|x xs IH]; cbn [map_result]; [discriminate|].
  destruct (f x) as [y|e0] eqn:Hx; cbn [bind].
  - destruct (map_result f xs) as [ys|e0]; cbn [bind]; [discriminate|].
    intros H. inversion H; subst. destruct (IH eq_refl) as (x' & Hx' & Hf).
    exists x'. split; [now right | exact Hf].
  - intros H. inversion H; subst. exists x. split; [now left | exact Hx].
Qed.

(** The projected lines have the points of the polylines, one for one. *)
Lemma projected_lines_points (polylines : list (list (Q * Q))) :
  forall lines,
  map_result (map_result project) polylines = Ok lines ->
  List.length (concat lines) = List.length (concat polylines)
  /\ forall q, In q (concat lines) ->
       exists p, In p (concat polylines) /\ project p = Ok q.
Proof.
  induction polylines as [|line polylines IH]; intros lines; cbn [map_result].
  - intros H. inversion H; subst. split; [reflexivity | intros q []].
  - destruct (map_result project line) as [line'|e] eqn:Hline; cbn [bind];
      [|discriminate].
    destruct (map_result (map_result project) polylines) as [lines'|e];
      cbn [bind]; [|discriminate].
    intros H. inversion H; subst.
    destruct (map_result_In _ _ _ Hline) as [Hlen Hin].
    destruct (IH lines' eq_refl) as [Hlen' Hin'].
    cbn [concat]. split; [rewrite !length_app; congruence|].
    intros q Hq. apply in_app_or in Hq as [Hq|Hq].
    + destruct (Hin q Hq) as (p & Hp & Hf). exists p.
      split; [apply in_or_app; now left | exact Hf].
    + destruct (Hin' q Hq) as (p & Hp & Hf). exists p.
      split; [apply in_or_app; now right | exact Hf].
Qed.

(** A projection raises only outside of the latitudes (-90, 90). *)
Lemma project_raise (p : Q * Q) (e : exn) :
  project p = Raise e -> e = ValueError /\ ~ (-90 < Q2R (fst p) < 90).
Proof.
  intros H. split.
  - unfold project, latlng2xy, math_log in H.
    destruct (Rlt_dec 0 _); cbn [bind] in H; [discriminate | congruence].
  - intros [Hlo Hhi]. unfold project in H.
    rewrite (latlng2xy_defined _ _ Hlo Hhi) in H. discriminate.
Qed.

Lemma projected_lines_raise (polylines : list (list (Q * Q))) (e : exn) :
  map_result (map_result project) polylines = Raise e ->
  e = ValueError
  /\ exists p, In p (concat polylines) /\ ~ (-90 < Q2R (fst p) < 90).
Proof.
  intros H. apply map_result_raise in H as (line & Hline & H).
  apply map_result_raise in H as (p & Hp & H).
  apply project_raise in H as [-> Hlat]. split; [reflexivity|].
  exists p. split; [|exact Hlat]. apply in_concat. exists line. now split.
Qed.

(** Points on one longitude have bounds without width. *)
Lemma one_longitude_bounds (polylines : list (list (Q * Q)))
    (lines : list (list (R * R))) (min_x min_y max_x max_y : R) :
  (forall p q, In p (concat polylines) -> In q (concat polylines) ->
               (snd p == snd q)%Q) ->
  map_result (map_result project) polylines = Ok lines ->
  compute_bounds lines = Some (min_x, min_y, max_x, max_y) ->
  min_x = max_x.
Proof.
  intros Hlng Hlines Hb.
  destruct (projected_lines_points _ _ Hlines) as [_ Hin].
  unfold compute_bounds in Hb. rewrite compute_bounds_concat in Hb.
  destruct (concat lines) as [|q0 qs] eqn:Hqs; [discriminate|].
  destruct (bounds_fold_at_x (fst q0) (q0 :: qs) None) as [Hat _].
  - intros q Hq. destruct (Hin q Hq) as (p & Hp & Hpq).
    destruct (Hin q0 (or_introl eq_refl)) as (p0 & Hp0 & Hpq0).
    destruct q as [x y], q0 as [x0 y0]. unfold project in Hpq, Hpq0.
    apply latlng2xy_x in Hpq, Hpq0. cbn [fst]. subst x x0.
    f_equal. f_equal. now apply Qeq_eqR, Hlng.
  - exact I.
  - right. discriminate.
  - rewrite Hb in Hat. destruct Hat as [-> ->]. reflexivity.
Qed.

Lemma draw_track_returns_extent (track : Track.t)
    (x_offset y_offset width height : R) (drawn : list (list (R * R))) :
  draw_track track x_offset y_offset width height = Ok drawn ->
  exists lines min_x min_y max_x max_y,
    map_result (map_result project) (Track.polylines track) = Ok lines
    /\ compute_bounds lines = Some (min_x, min_y, max_x, max_y)
    /\ min_x < max_x /\ min_y < max_y.
Proof.
  unfold draw_track.
  destruct (map_result (map_result project) (Track.polylines track))
    as [lines|e] eqn:Hlines; [|discriminate].
  cbn [bind].
  destruct (compute_bounds lines) as [[[[min_x min_y] max_x] max_y]|] eqn:Hb;
    [|discriminate].
  pose proof (compute_bounds_ordered lines) as Hord. rewrite Hb in Hord.
  destruct Hord as [Hx Hy]. unfold R_div.
  destruct (Req_dec_T (max_x - min_x) 0) as [|Hdx]; [discriminate|].
  cbn [bind].
  destruct (Req_dec_T height 0); [discriminate|]. cbn [bind].
  destruct (Req_dec_T (max_y - min_y) 0) as [|Hdy]; [discriminate|].
  intros _.
  exists lines, min_x, min_y, max_x, max_y.
  split; [reflexivity|]. split; [exact Hb|]. split.
  - destruct Hx as [Hx|Hx]; [exact Hx|]. exfalso. apply Hdx. lra.
  - destruct Hy as [Hy|Hy]; [exact Hy|]. exfalso. apply Hdy. lra.
Qed.

(** What [draw_track] raises for points on one longitude: the division by
    the width of the bounds, unless there is no point at all (the bounds
    are [None]) or a point could not be projected. *)
Lemma draw_track_one_longitude (track : Track.t)
    (x_offset y_offset width height : R) :
  (forall p q, In p (points track) -> In q (points track) ->
               (snd p == snd q)%Q) ->
  draw_track track x_offset y_offset width height = Raise ZeroDivisionError
  \/ (points track = []
      /\ draw_track track x_offset y_offset width height = Raise TypeError)
  \/ ((exists p, In p (points track) /\ ~ (-90 < Q2R (fst p) < 90))
      /\ draw_track track x_offset y_offset width height = Raise ValueError).
Proof.
  intros Hlng. unfold draw_track.
  destruct (map_result (map_result project) (Track.polylines track))
    as [lines|e] eqn:Hlines; cbn [bind].
  - destruct (compute_bounds lines) as [[[[min_x min_y] max_x] max_y]|] eqn:Hb.
    + left. rewrite (one_longitude_bounds _ _ _ _ _ _ Hlng Hlines Hb).
      unfold R_div. destruct (Req_dec_T _ 0) as [_|Hd]; [reflexivity|].
      exfalso. lra.
    + right. left. split; [|reflexivity].
      destruct (projected_lines_points _ _ Hlines) as [Hlen _].
      unfold compute_bounds in Hb. rewrite compute_bounds_concat in Hb.
      apply bounds_fold_None in Hb as [_ Hnil]. rewrite Hnil in Hlen.
      unfold points.
      destruct (concat (Track.polylines track)); [reflexivity | discriminate].
  - right. right. apply projected_lines_raise in Hlines as [-> Hp].
    split; [exact Hp | reflexivity].
Qed.

(** C10: when all points of a track are on one longitude, [draw_track]
    raises: [ZeroDivisionError] from the division by the width [d_x = 0] of
    the projected bounds if the track has a point and every point is
    projected (latitude in (-90, 90)), and otherwise [TypeError] (no point,
    no bounds) or [ValueError] (a latitude that [math.log] rejects).
    Whenever [draw_track] returns, the projected bounds of the track have
    strictly positive width and height. *)
Theorem draw_track_needs_extent (track : Track.t)
    (x_offset y_offset width height : R) :
  ((forall p q, In p (points track) -> In q (points track) ->
                (snd p == snd q)%Q) ->
   (points track <> [] ->
    (forall p, In p (points track) -> -90 < Q2R (fst p) < 90) ->
    draw_track track x_offset y_offset width height = Raise ZeroDivisionError)
   /\ (draw_track track x_offset y_offset width height = Raise ZeroDivisionError
       \/ (points track = []
           /\ draw_track track x_offset y_offset width height = Raise TypeError)
       \/ ((exists p, In p (points track) /\ ~ (-90 < Q2R (fst p) < 90))
           /\ draw_track track x_offset y_offset width height
              = Raise ValueError)))
  /\ (forall drawn,
        draw_track track x_offset y_offset width height = Ok drawn ->
        exists lines min_x min_y max_x max_y,
          map_result (map_result project) (Track.polylines track) = Ok lines
          /\ compute_bounds lines = Some (min_x, min_y, max_x, max_y)
          /\ min_x < max_x /\ min_y < max_y).
Proof.
  split; [|apply draw_track_returns_extent].
  intros Hlng.
  pose proof (draw_track_one_longitude track x_offset y_offset width height Hlng)
    as Hraise.
  split; [|exact Hraise].
  intros Hne Hlat.
  destruct Hraise as [H | [[Hnil _] | [(p & Hp & Hout) _]]].
  - exact H.
  - contradiction.
  - elim Hout. now apply Hlat.
Qed.

Lemma Rmin_lt_Rmax (a b : R) : a <> b -> Rmin a b < Rmax a b.
Proof.
  intros H. unfold Rmin, Rmax. destruct (Rle_dec a b) as [[Hlt|Heq]|Hgt]; lra.
Qed.

Lemma draw_track_needs_extent_witness :
  draw_track single_point 0 0 1 1 = Raise ZeroDivisionError
  /\ exists drawn lines min_x min_y max_x max_y,
       draw_track diagonal 0 0 1 1 = Ok drawn
       /\ map_result (map_result project) (Track.polylines diagonal) = Ok lines
       /\ compute_bounds lines = Some (min_x, min_y, max_x, max_y)
       /\ min_x < max_x /\ min_y < max_y.
Proof.
  split.
  - apply (proj1 (draw_track_needs_extent single_point 0 0 1 1)).
    + intros p q [<-|[]] [<-|[]]. reflexivity.
    + discriminate.
    + intros p [<-|[]]. cbn [fst]. unfold Q2R. simpl. lra.
  - assert (Hlat : forall p, In p (concat (Track.polylines diagonal)) ->
                             -90 < Q2R (fst p) < 90).
    { intros p [<-|[<-|[]]]; cbn [fst]; unfold Q2R; simpl; lra. }
    pose proof (project_lines _ Hlat) as Hlines.
    assert (Hx : fst (projected (0, 0)%Q) <> fst (projected (45, 90)%Q)).
    { unfold projected. cbn [fst snd]. unfold Q2R. simpl. lra. }
    assert (Hy : snd (projected (45, 90)%Q) < snd (projected (0, 0)%Q)).
    { unfold projected. cbn [fst snd]. apply mercator_y_decreasing;
        unfold Q2R; simpl; lra. }
    destruct (draw_track_ok diagonal 0 0 1 1 _ _ _ _ _ Hlines eq_refl)
      as [drawn Hdrawn].
    { apply Rmin_lt_Rmax. intros E. apply Hx. symmetry. exact E. }
    { apply Rmin_lt_Rmax, Rlt_not_eq. exact Hy. }
    { lra. }
    destruct (proj2 (draw_track_needs_extent diagonal 0 0 1 1) drawn Hdrawn)
      as (lines & min_x & min_y & max_x & max_y & H).
    exists drawn, lines, min_x, min_y, max_x, max_y. split; [exact Hdrawn | exact H].
Defined.

(** * Further properties *)

(** ** compute_lengths *)

Local Open Scope Z_scope.

Lemma sum_lengths_snoc (seen : list Track.t) (t : Track.t) :
  (sum_lengths (seen ++ [t]) == sum_lengths seen + Track.length t)%Q.
Proof.
  induction seen as [|u seen IH]; cbn [sum_lengths app fold_right].
  - ring.
  - fold (sum_lengths (seen ++ [t])) (sum_lengths seen). rewrite IH. ring.
Qed.

Lemma lengths_step_seen (seen : list Track.t) (st : Q * Q * Q) (t : Track.t) :
  Forall nonneg_length seen -> nonneg_length t ->
  lengths_seen seen st -> lengths_seen (seen ++ [t]) (lengths_step st t).
Proof.
  intros Hseen Ht. destruct st as [[mn mx] tot].
  unfold lengths_seen, lengths_step. intros [Htot Hst].
  split; [rewrite sum_lengths_snoc, Htot; reflexivity|]. right.
  assert (Hin : forall u, In u (seen ++ [t]) -> In u seen \/ u = t).
  { intros u Hu. apply in_app_or in Hu as [Hu|[<-|[]]]; auto. }
  destruct Hst as [(-> & -> & ->) | ((tm & Htm & Emn) & Hmn & (tx & Htx & Emx) & Hmx)].
  - cbn [Qltb Qle_bool negb orb app]. simpl.
    repeat split; try (exists t; split; [now left | reflexivity]);
      intros u [<-|[]]; apply Qle_refl.
  - rewrite List.Forall_forall in Hseen.
    assert (H0mn : Qltb mn 0 = false)
      by (apply Qltb_false; subst mn; now apply Hseen).
    assert (H0mx : Qltb mx 0 = false)
      by (apply Qltb_false; subst mx; now apply Hseen).
    rewrite H0mn, H0mx. cbn [orb]. repeat split.
    + destruct (Qltb (Track.length t) mn).
      * exists t. split; [apply in_or_app; right; now left | reflexivity].
      * exists tm. split; [apply in_or_app; now left | exact Emn].
    + intros u Hu. destruct (Qltb (Track.length t) mn) eqn:E.
      * apply Qltb_true in E. destruct (Hin u Hu) as [H| ->];
          [specialize (Hmn u H); lra | apply Qle_refl].
      * apply Qltb_false in E. destruct (Hin u Hu) as [H| ->]; auto.
    + destruct (Qltb mx (Track.length t)).
      * exists t. split; [apply in_or_app; right; now left | reflexivity].
      * exists tx. split; [apply in_or_app; now left | exact Emx].
    + intros u Hu. destruct (Qltb mx (Track.length t)) eqn:E.
      * apply Qltb_true in E. destruct (Hin u Hu) as [H| ->];
          [specialize (Hmx u H); lra | apply Qle_refl].
      * apply Qltb_false in E. destruct (Hin u Hu) as [H| ->]; auto.
Qed.

Lemma lengths_fold_seen (ts : list Track.t) : forall seen st,
  Forall nonneg_length seen -> Forall nonneg_length ts ->
  lengths_seen seen st ->
  lengths_seen (seen ++ ts) (fold_left lengths_step ts st).
Proof.
  induction ts as [|t ts IH]; intros seen st Hseen Hts Hst; cbn [fold_left].
  - now rewrite app_nil_r.
  - inversion Hts as [|? ? Ht Hrest]; subst.
    replace (seen ++ t :: ts) with ((seen ++ [t]) ++ ts)
      by now rewrite <- app_assoc.
    apply IH; [|exact Hrest|now apply lengths_step_seen].
    apply Forall_app. split; [exact Hseen | now constructor].
Qed.

Lemma sum_lengths_bounds (tracks : list Track.t) (lo hi : Q) :
  (forall u, In u tracks -> (lo <= Track.length u)%Q) ->
  (forall u, In u tracks -> (Track.length u <= hi)%Q) ->
  (inject_Z (Z.of_nat (List.length tracks)) * lo <= sum_lengths tracks)%Q
  /\ (sum_lengths tracks <= inject_Z (Z.of_nat (List.length tracks)) * hi)%Q.
Proof.
  induction tracks as [|t tracks IH]; intros Hlo Hhi.
  - change (inject_Z (Z.of_nat (List.length (@nil Track.t)))) with 0%Q.
    change (sum_lengths []) with 0%Q. split; lra.
  - destruct IH as [IH1 IH2];
      [intros u Hu; apply Hlo; now right | intros u Hu; apply Hhi; now right|].
    cbn [List.length sum_lengths fold_right]. fold (sum_lengths tracks).
    rewrite Nat2Z.inj_succ, <- Z.add_1_r, inject_Z_plus.
    change (inject_Z 1) with 1%Q.
    specialize (Hlo t (or_introl eq_refl)).
    specialize (Hhi t (or_introl eq_refl)). split; lra.
Qed.

Lemma length_pos_Q {A : Type} (xs : list A) :
  xs <> [] -> (0 < inject_Z (Z.of_nat (List.length xs)))%Q.
Proof.
  intros H. apply inject_Z_pos. destruct xs; [congruence | simpl; lia].
Qed.

(** X1: [compute_lengths] raises [ZeroDivisionError] on the empty list, by
    the division for the average, and returns on every other list. *)
Theorem compute_lengths_raises_iff_empty (tracks : list Track.t) :
  (tracks = [] -> compute_lengths tracks = Raise ZeroDivisionError)
  /\ (tracks <> [] -> exists stats, compute_lengths tracks = Ok stats).
Proof.
  split.
  - intros ->. reflexivity.
  - intros Hne. unfold compute_lengths.
    destruct (fold_left lengths_step tracks (-1, -1, 0)%Q) as [[mn mx] tot].
    pose proof (length_pos_Q tracks Hne) as Hn.
    rewrite py_div_ok by lra. cbn [bind]. eexists. reflexivity.
Qed.

Lemma compute_lengths_raises_iff_empty_witness :
  exists stats, compute_lengths [ends_at_noon] = Ok stats.
Proof.
  apply (proj2 (compute_lengths_raises_iff_empty [ends_at_noon])). discriminate.
Defined.

(** X2: for a list of tracks that is not empty, with lengths that are not
    negative, [compute_lengths] returns the total, the average, the least
    and the greatest length in kilometres: the least and the greatest are
    lengths of tracks of the list that bound all the others, the average
    times the number of tracks is the total, and the average lies between
    the least and the greatest. *)
Theorem compute_lengths_statistics (tracks : list Track.t) :
  tracks <> [] -> Forall nonneg_length tracks ->
  exists total average least greatest,
    compute_lengths tracks = Ok (total, average, least, greatest)
    /\ (total == 0.001 * sum_lengths tracks)%Q
    /\ (average * inject_Z (Z.of_nat (List.length tracks)) == total)%Q
    /\ (exists t, In t tracks /\ least = (0.001 * Track.length t)%Q)
    /\ (forall u, In u tracks -> (least <= 0.001 * Track.length u)%Q)
    /\ (exists t, In t tracks /\ greatest = (0.001 * Track.length t)%Q)
    /\ (forall u, In u tracks -> (0.001 * Track.length u <= greatest)%Q)
    /\ (least <= average)%Q /\ (average <= greatest)%Q.
Proof.
  intros Hne Hall. unfold compute_lengths.
  pose proof (lengths_fold_seen tracks [] (-1, -1, 0)%Q (List.Forall_nil _) Hall)
    as Hseen.
  cbn [app] in Hseen.
  destruct (fold_left lengths_step tracks (-1, -1, 0)%Q) as [[mn mx] tot].
  destruct Hseen as [Htot Hst].
  { split; [reflexivity | left; auto]. }
  destruct Hst as [(-> & _) | ((tm & Htm & Emn) & Hmn & (tx & Htx & Emx) & Hmx)];
    [congruence|].
  pose proof (length_pos_Q tracks Hne) as Hn.
  rewrite py_div_ok by lra. cbn [bind].
  destruct (sum_lengths_bounds tracks mn mx Hmn Hmx) as [Hlo Hhi].
  set (n := inject_Z (Z.of_nat (List.length tracks))) in *.
  eexists _, _, _, _. split; [reflexivity|].
  split; [rewrite Htot; reflexivity|].
  split; [field; lra|].
  split; [exists tm; split; [exact Htm | now rewrite Emn]|].
  split; [intros u Hu; specialize (Hmn u Hu); lra|].
  split; [exists tx; split; [exact Htx | now rewrite Emx]|].
  split; [intros u Hu; specialize (Hmx u Hu); lra|].
  split.
  - apply Qle_shift_div_l; [exact Hn|]. rewrite Htot. lra.
  - apply Qle_shift_div_r; [exact Hn|]. rewrite Htot. lra.
Qed.

Lemma compute_lengths_statistics_witness :
  exists total average least greatest,
    compute_lengths [ends_at_noon; starts_at 13 0 0]
    = Ok (total, average, least, greatest)
    /\ (least <= average)%Q /\ (average <= greatest)%Q.
Proof.
  destruct (compute_lengths_statistics [ends_at_noon; starts_at 13 0 0])
    as (total & average & least & greatest & H & _ & _ & _ & _ & _ & _ & Hlo & Hhi).
  - discriminate.
  - repeat constructor; unfold nonneg_length; vm_compute; discriminate.
  - exists total, average, least, greatest. auto.
Defined.

(** ** compute_bounds *)

Local Open Scope R_scope.

Lemma Rmin_cases (a b : R) : (Rmin a b = a /\ a <= b) \/ (Rmin a b = b /\ b <= a).
Proof. unfold Rmin. destruct (Rle_dec a b); [left | right]; split; lra. Qed.

Lemma Rmax_cases (a b : R) : (Rmax a b = a /\ b <= a) \/ (Rmax a b = b /\ a <= b).
Proof. unfold Rmax. destruct (Rle_dec a b); [right | left]; split; lra. Qed.

Lemma bounds_step_of (seen : list (R * R)) (b : option (R * R * R * R))
    (p : R * R) :
  bounds_of seen b -> bounds_of (seen ++ [p]) (bounds_step b p).
Proof.
  destruct p as [x y].
  assert (Hlast : In (x, y) (seen ++ [(x, y)]))
    by (apply in_or_app; right; now left).
  destruct b as [[[[min_x min_y] max_x] max_y]|]; cbn [bounds_of bounds_step].
  - intros (Hin & (px & Hpx & Epx) & (py & Hpy & Epy)
            & (qx & Hqx & Eqx) & (qy & Hqy & Eqy)).
    assert (Hold : forall q, In q seen -> In q (seen ++ [(x, y)]))
      by (intros q Hq; apply in_or_app; now left).
    destruct (Rmin_cases x min_x) as [[-> Hx1]|[-> Hx1]];
    destruct (Rmin_cases y min_y) as [[-> Hy1]|[-> Hy1]];
    destruct (Rmax_cases x max_x) as [[-> Hx2]|[-> Hx2]];
    destruct (Rmax_cases y max_y) as [[-> Hy2]|[-> Hy2]];
    (split;
     [ intros q Hq; apply in_app_or in Hq as [Hq|[<-|[]]];
       [ destruct (Hin q Hq) as [[? ?] [? ?]]; cbn [fst snd]; lra
       | cbn [fst snd]; lra ]
     | repeat split;
       first [ exists (x, y); split; [exact Hlast | reflexivity]
             | exists px; split; [now apply Hold | exact Epx]
             | exists py; split; [now apply Hold | exact Epy]
             | exists qx; split; [now apply Hold | exact Eqx]
             | exists qy; split; [now apply Hold | exact Eqy] ] ]).
  - intros ->. cbn [app]. split.
    + intros q [<-|[]]. cbn [fst snd]. lra.
    + repeat split; exists (x, y); (split; [now left | reflexivity]).
Qed.

Lemma bounds_fold_of (pts : list (R * R)) : forall seen b,
  bounds_of seen b -> bounds_of (seen ++ pts) (fold_left bounds_step pts b).
Proof.
  induction pts as [|p pts IH]; intros seen b Hb; cbn [fold_left].
  - now rewrite app_nil_r.
  - replace (seen ++ p :: pts) with ((seen ++ [p]) ++ pts)
      by now rewrite <- app_assoc.
    apply IH, bounds_step_of, Hb.
Qed.

Lemma compute_bounds_of (polylines : list (list (R * R))) :
  bounds_of (concat polylines) (compute_bounds polylines).
Proof.
  unfold compute_bounds. rewrite compute_bounds_concat.
  apply (bounds_fold_of (concat polylines) [] None). reflexivity.
Qed.

(** X3: [compute_bounds] returns nothing exactly when the polylines have no
    point; otherwise every point lies within the bounds returned, and each
    of the four bounds is the coordinate of some point. *)
Theorem compute_bounds_encloses (polylines : list (list (R * R))) :
  bounds_of (concat polylines) (compute_bounds polylines)
  /\ (compute_bounds polylines = None <-> concat polylines = []).
Proof.
  pose proof (compute_bounds_of polylines) as H.
  split; [exact H|]. split.
  - intros E. rewrite E in H. exact H.
  - intros E. destruct (compute_bounds polylines) as [[[[a b] c] d]|];
      [|reflexivity].
    destruct H as (_ & (p & Hp & _) & _). rewrite E in Hp. destruct Hp.
Qed.

(** ** draw_track: the drawing in its tile *)

(** The scale that [draw_track] chooses fits the bounds into the tile and
    fills the tile in one direction. *)
Lemma fit_scale (width height d_x d_y : R) :
  0 < width -> 0 < height -> 0 < d_x -> 0 < d_y ->
  let scale := if Rlt_dec (d_x / d_y) (width / height)
               then height / d_y else width / d_x in
  0 < scale /\ scale * d_x <= width /\ scale * d_y <= height
  /\ (scale * d_x = width \/ scale * d_y = height).
Proof.
  intros Hw Hh Hx Hy scale. unfold scale.
  assert (Hiy : 0 < / d_y) by now apply Rinv_0_lt_compat.
  assert (Hix : 0 < / d_x) by now apply Rinv_0_lt_compat.
  assert (Hih : 0 < / height) by now apply Rinv_0_lt_compat.
  destruct (Rlt_dec (d_x / d_y) (width / height)) as [Hlt|Hge].
  - assert (E : height / d_y * d_y = height) by (field; lra).
    assert (Hcross : d_x * height < width * d_y).
    { apply (Rmult_lt_compat_r (d_y * height)) in Hlt; [|nra].
      replace (d_x / d_y * (d_y * height)) with (d_x * height) in Hlt
        by (field; lra).
      replace (width / height * (d_y * height)) with (width * d_y) in Hlt
        by (field; lra).
      exact Hlt. }
    split; [unfold Rdiv; nra|]. split; [|split; [lra | now right]].
    replace (height / d_y * d_x) with (d_x * height * / d_y) by (field; lra).
    apply (Rmult_le_reg_r d_y); [exact Hy|].
    replace (d_x * height * / d_y * d_y) with (d_x * height) by (field; lra).
    lra.
  - assert (E : width / d_x * d_x = width) by (field; lra).
    assert (Hcross : width * d_y <= d_x * height).
    { apply Rnot_lt_le in Hge.
      apply (Rmult_le_compat_r (d_y * height)) in Hge; [|nra].
      replace (d_x / d_y * (d_y * height)) with (d_x * height) in Hge
        by (field; lra).
      replace (width / height * (d_y * height)) with (width * d_y) in Hge
        by (field; lra).
      exact Hge. }
    split; [unfold Rdiv; nra|]. split; [lra|]. split; [|now left].
    replace (width / d_x * d_y) with (width * d_y * / d_x) by (field; lra).
    apply (Rmult_le_reg_r d_x); [exact Hx|].
    replace (width * d_y * / d_x * d_x) with (width * d_y) by (field; lra).
    lra.
Qed.

(** What [draw_track] returns, for a tile with a width and a height. *)
Lemma draw_track_drawn (track : Track.t) (x_offset y_offset width height : R)
    (drawn : list (list (R * R))) :
  0 < width -> 0 < height ->
  draw_track track x_offset y_offset width height = Ok drawn ->
  exists lines min_x min_y max_x max_y scale,
    map_result (map_result project) (Track.polylines track) = Ok lines
    /\ compute_bounds lines = Some (min_x, min_y, max_x, max_y)
    /\ min_x < max_x /\ min_y < max_y
    /\ 0 < scale
    /\ scale * (max_x - min_x) <= width
    /\ scale * (max_y - min_y) <= height
    /\ (scale * (max_x - min_x) = width \/ scale * (max_y - min_y) = height)
    /\ drawn
       = map (map (fun p =>
           (x_offset + (0.5 * width - 0.5 * scale * (max_x - min_x))
            + scale * (fst p - min_x),
            y_offset + (0.5 * height - 0.5 * scale * (max_y - min_y))
            + scale * (snd p - min_y)))) lines.
Proof.
  intros Hw Hh Hdraw.
  destruct (draw_track_returns_extent _ _ _ _ _ _ Hdraw)
    as (lines & min_x & min_y & max_x & max_y & Hlines & Hb & Hx & Hy).
  exists lines, min_x, min_y, max_x, max_y.
  unfold draw_track in Hdraw. rewrite Hlines in Hdraw. cbn [bind] in Hdraw.
  rewrite Hb in Hdraw. unfold R_div in Hdraw.
  destruct (Req_dec_T (max_x - min_x) 0); [lra|]. cbn [bind] in Hdraw.
  destruct (Req_dec_T height 0); [lra|]. cbn [bind] in Hdraw.
  destruct (Req_dec_T (max_y - min_y) 0); [lra|]. cbn [bind] in Hdraw.
  pose proof (fit_scale width height (max_x - min_x) (max_y - min_y)
                Hw Hh ltac:(lra) ltac:(lra)) as Hfit.
  cbv zeta in Hfit.
  destruct (Rlt_dec ((max_x - min_x) / (max_y - min_y)) (width / height));
    cbn [bind] in Hdraw; inversion Hdraw; subst drawn;
    eexists; repeat split; try apply Hfit; try assumption.
Qed.

(** X4: for a tile with a width and a height, what [draw_track] returns is
    the track scaled by one factor in both directions and centred in the
    tile: there are extents [sx <= width] and [sy <= height], one of them
    that of the tile, such that every drawn point lies in the rectangle of
    width [sx] and height [sy] in the middle of the tile, so within the
    tile, and each side of that rectangle has a drawn point on it. *)
Theorem draw_track_centred_in_tile (track : Track.t)
    (x_offset y_offset width height : R) (drawn : list (list (R * R))) :
  0 < width -> 0 < height ->
  draw_track track x_offset y_offset width height = Ok drawn ->
  exists sx sy,
    0 < sx <= width /\ 0 < sy <= height /\ (sx = width \/ sy = height)
    /\ (forall line p, In line drawn -> In p line ->
          x_offset + (width - sx) / 2 <= fst p <= x_offset + (width + sx) / 2
          /\ y_offset + (height - sy) / 2 <= snd p <= y_offset + (height + sy) / 2
          /\ x_offset <= fst p <= x_offset + width
          /\ y_offset <= snd p <= y_offset + height)
    /\ (exists line p, In line drawn /\ In p line
                       /\ fst p = x_offset + (width - sx) / 2)
    /\ (exists line p, In line drawn /\ In p line
                       /\ fst p = x_offset + (width + sx) / 2)
    /\ (exists line p, In line drawn /\ In p line
                       /\ snd p = y_offset + (height - sy) / 2)
    /\ (exists line p, In line drawn /\ In p line
                       /\ snd p = y_offset + (height + sy) / 2).
Proof.
  intros Hw Hh Hdraw.
  destruct (draw_track_drawn _ _ _ _ _ _ Hw Hh Hdraw)
    as (lines & min_x & min_y & max_x & max_y & scale & _ & Hb & Hx & Hy
        & Hs & Hsx & Hsy & Hfill & ->).
  pose proof (compute_bounds_of lines) as Hof. rewrite Hb in Hof.
  destruct Hof as (Hin & Hminx & Hminy & Hmaxx & Hmaxy).
  exists (scale * (max_x - min_x)), (scale * (max_y - min_y)).
  assert (Hpos_x : 0 < scale * (max_x - min_x)) by nra.
  assert (Hpos_y : 0 < scale * (max_y - min_y)) by nra.
  split; [lra|]. split; [lra|]. split; [exact Hfill|].
  assert (Hmem : forall (P : R * R -> Prop),
            (exists q, In q (concat lines) /\ P q) ->
            exists line p,
              In line (map (map (fun p0 : R * R =>
                (x_offset + (0.5 * width - 0.5 * scale * (max_x - min_x))
                 + scale * (fst p0 - min_x),
                 y_offset + (0.5 * height - 0.5 * scale * (max_y - min_y))
                 + scale * (snd p0 - min_y)))) lines)
              /\ In p line
              /\ exists q, P q
                 /\ p = (x_offset + (0.5 * width - 0.5 * scale * (max_x - min_x))
                         + scale * (fst q - min_x),
                         y_offset + (0.5 * height - 0.5 * scale * (max_y - min_y))
                         + scale * (snd q - min_y))).
  { intros P (q & Hq & HP). apply in_concat in Hq as (line & Hline & Hq).
    eexists _, _. split; [apply in_map; exact Hline|].
    split; [apply in_map; exact Hq|]. exists q. split; [exact HP | reflexivity]. }
  split.
  { intros line p Hline Hp.
    apply in_map_iff in Hline as (line0 & <- & Hline0).
    apply in_map_iff in Hp as (q & <- & Hq).
    destruct (Hin q) as [[Hq1 Hq2] [Hq3 Hq4]];
      [apply in_concat; exists line0; now split|].
    cbn [fst snd].
    assert (0 <= scale * (fst q - min_x) <= scale * (max_x - min_x)) by nra.
    assert (0 <= scale * (snd q - min_y) <= scale * (max_y - min_y)) by nra.
    repeat split; lra. }
  split; [|split; [|split]].
  - destruct (Hmem (fun q => fst q = min_x) Hminx)
      as (line & p & Hl & Hp & q & Eq & ->).
    exists line. eexists. split; [exact Hl|]. split; [exact Hp|].
    cbn [fst]. rewrite Eq. lra.
  - destruct (Hmem (fun q => fst q = max_x) Hmaxx)
      as (line & p & Hl & Hp & q & Eq & ->).
    exists line. eexists. split; [exact Hl|]. split; [exact Hp|].
    cbn [fst]. rewrite Eq. lra.
  - destruct (Hmem (fun q => snd q = min_y) Hminy)
      as (line & p & Hl & Hp & q & Eq & ->).
    exists line. eexists. split; [exact Hl|]. split; [exact Hp|].
    cbn [snd]. rewrite Eq. lra.
  - destruct (Hmem (fun q => snd q = max_y) Hmaxy)
      as (line & p & Hl & Hp & q & Eq & ->).
    exists line. eexists. split; [exact Hl|]. split; [exact Hp|].
    cbn [snd]. rewrite Eq. lra.
Qed.

Lemma diagonal_is_drawn : exists drawn, draw_track diagonal 0 0 1 1 = Ok drawn.
Proof.
  assert (Hlat : forall p, In p (concat (Track.polylines diagonal)) ->
                           -90 < Q2R (fst p) < 90).
  { intros p [<-|[<-|[]]]; cbn [fst]; unfold Q2R; simpl; lra. }
  pose proof (project_lines _ Hlat) as Hlines.
  assert (Hx : fst (projected (45, 90)%Q) <> fst (projected (0, 0)%Q)).
  { unfold projected. cbn [fst snd]. unfold Q2R. simpl. lra. }
  assert (Hy : snd (projected (45, 90)%Q) < snd (projected (0, 0)%Q)).
  { unfold projected. cbn [fst snd]. apply mercator_y_decreasing;
      unfold Q2R; simpl; lra. }
  apply (draw_track_ok diagonal 0 0 1 1 _ _ _ _ _ Hlines eq_refl).
  - apply Rmin_lt_Rmax. exact Hx.
  - apply Rmin_lt_Rmax, Rlt_not_eq. exact Hy.
  - lra.
Qed.

Lemma draw_track_centred_in_tile_witness :
  exists drawn,
    draw_track diagonal 0 0 1 1 = Ok drawn
    /\ forall line p, In line drawn -> In p line ->
         0 <= fst p <= 0 + 1 /\ 0 <= snd p <= 0 + 1.
Proof.
  destruct diagonal_is_drawn as [drawn Hdrawn]. exists drawn.
  split; [exact Hdrawn|].
  destruct (draw_track_centred_in_tile diagonal 0 0 1 1 drawn
              ltac:(lra) ltac:(lra) Hdrawn)
    as (sx & sy & _ & _ & _ & Hin & _).
  intros line p Hline Hp. destruct (Hin line p Hline Hp) as (_ & _ & H1 & H2).
  split; assumption.
Defined.

(** ** compute_grid: the candidate selected and the layout *)

Local Open Scope Z_scope.

Lemma grid_step_least (count width height : Z) (seen : list Z) (st : Q * Q)
    (x : Z) :
  (st = (-1, -1)%Q
   /\ forall y, In y seen -> (candidate_waste count width height y < 0)%Q)
  \/ (exists x0, least_waste count width height seen x0
                 /\ st = (candidate_waste count width height x0,
                          candidate_size width x0)) ->
  (grid_step count width height st x = (-1, -1)%Q
   /\ forall y, In y (seen ++ [x]) ->
                (candidate_waste count width height y < 0)%Q)
  \/ (exists x0, least_waste count width height (seen ++ [x]) x0
                 /\ grid_step count width height st x
                    = (candidate_waste count width height x0,
                       candidate_size width x0)).
Proof.
  intros Hst. unfold grid_step. destruct st as [min_waste best_size].
  assert (Hin : forall y, In y (seen ++ [x]) -> In y seen \/ y = x).
  { intros y Hy. apply in_app_or in Hy as [Hy|[<-|[]]]; auto. }
  destruct (Qltb (candidate_waste count width height x) 0) eqn:Hneg.
  - apply Qltb_true in Hneg. destruct Hst as [[E Hall] | (x0 & (Hx0 & Hp & Hleast) & E)].
    + left. split; [exact E|]. intros y Hy.
      destruct (Hin y Hy) as [H| ->]; auto.
    + right. exists x0. split; [|exact E].
      split; [apply in_or_app; now left|]. split; [exact Hp|].
      intros y Hy Hpy. destruct (Hin y Hy) as [H| ->]; [now apply Hleast | lra].
  - apply Qltb_false in Hneg. right.
    destruct (Qltb min_waste 0
              || Qltb (candidate_waste count width height x) min_waste) eqn:Hupd.
    + exists x. split; [|reflexivity].
      split; [apply in_or_app; right; now left|]. split; [exact Hneg|].
      intros y Hy Hpy. destruct (Hin y Hy) as [H| ->]; [|apply Qle_refl].
      destruct Hst as [[E Hall] | (x0 & (Hx0 & Hp & Hleast) & E)].
      * specialize (Hall y H). lra.
      * inversion E; subst min_waste best_size.
        apply orb_true_iff in Hupd as [Hupd|Hupd]; apply Qltb_true in Hupd.
        -- lra.
        -- specialize (Hleast y H Hpy). lra.
    + destruct Hst as [[E Hall] | (x0 & (Hx0 & Hp & Hleast) & E)].
      * inversion E; subst. discriminate Hupd.
      * exists x0. split; [|exact E].
        split; [apply in_or_app; now left|]. split; [exact Hp|].
        intros y Hy Hpy. destruct (Hin y Hy) as [H| ->]; [now apply Hleast|].
        inversion E; subst min_waste best_size.
        apply orb_false_iff in Hupd as [_ Hupd]. now apply Qltb_false in Hupd.
Qed.

Lemma grid_scan_least (count width height : Z) (xs : list Z) :
  (grid_scan count width height xs = (-1, -1)%Q
   /\ forall y, In y xs -> (candidate_waste count width height y < 0)%Q)
  \/ (exists x0, least_waste count width height xs x0
                 /\ grid_scan count width height xs
                    = (candidate_waste count width height x0,
                       candidate_size width x0)).
Proof.
  unfold grid_scan.
  assert (H : forall ys seen st,
    ((st = (-1, -1)%Q
      /\ forall y, In y seen -> (candidate_waste count width height y < 0)%Q)
     \/ (exists x0, least_waste count width height seen x0
                    /\ st = (candidate_waste count width height x0,
                             candidate_size width x0))) ->
    (fold_left (grid_step count width height) ys st = (-1, -1)%Q
     /\ forall y, In y (seen ++ ys) ->
                  (candidate_waste count width height y < 0)%Q)
    \/ (exists x0, least_waste count width height (seen ++ ys) x0
                   /\ fold_left (grid_step count width height) ys st
                      = (candidate_waste count width height x0,
                         candidate_size width x0))).
  { induction ys as [|y ys IH]; intros seen st Hst; cbn [fold_left].
    - now rewrite app_nil_r.
    - replace (seen ++ y :: ys) with ((seen ++ [y]) ++ ys)
        by now rewrite <- app_assoc.
      apply IH, grid_step_least, Hst. }
  apply (H xs [] (-1, -1)%Q). left. split; [reflexivity | intros y []].
Qed.

(** A greater tile size has the smaller waste. *)
Lemma waste_le_size_ge (count width height x y : Z) :
  1 <= count -> 0 < width -> 0 < x -> 0 < y ->
  (candidate_waste count width height x <= candidate_waste count width height y)%Q ->
  (candidate_size width y <= candidate_size width x)%Q.
Proof.
  intros Hc Hw Hx Hy Hle. unfold candidate_waste in Hle.
  pose proof (candidate_size_pos width x Hw Hx) as Hsx.
  pose proof (candidate_size_pos width y Hw Hy) as Hsy.
  assert (Hcq : (1 <= inject_Z count)%Q) by (unfold Qle, inject_Z; simpl; lia).
  revert Hle Hsx Hsy. generalize (candidate_size width x) (candidate_size width y).
  intros sx sy Hle Hsx Hsy.
  apply Qnot_lt_le. intros Hlt.
  assert (sx * sx < sy * sy)%Q by nra.
  assert (inject_Z count * sx * sx < inject_Z count * sy * sy)%Q by nra.
  lra.
Qed.

(** X5: when some column count in [1 .. width-1] has non-negative waste
    ([count >= 1], [width > 1]), the tile size that [compute_grid] returns
    is [width/x] for a column count [x] of that range whose waste is the
    least non-negative waste of the range; it is the greatest of the tile
    sizes [width/y] whose waste is not negative. *)
Theorem compute_grid_least_waste (count width height : Z) :
  1 <= count -> 1 < width ->
  (exists y, 1 <= y < width /\ (0 <= candidate_waste count width height y)%Q) ->
  exists x cx cy sp,
    1 <= x < width
    /\ compute_grid count width height = Ok (candidate_size width x, cx, cy, sp)
    /\ (0 <= candidate_waste count width height x)%Q
    /\ (forall y, 1 <= y < width ->
          (0 <= candidate_waste count width height y)%Q ->
          (candidate_waste count width height x
           <= candidate_waste count width height y)%Q
          /\ (candidate_size width y <= candidate_size width x)%Q).
Proof.
  intros Hc Hw (y0 & Hy0 & Hwaste0).
  destruct (grid_scan_least count width height (range 1 width))
    as [[_ Hall] | (x & (Hx & Hp & Hleast) & E)].
  - apply in_range in Hy0. apply Hall in Hy0. lra.
  - apply in_range in Hx.
    destruct (compute_grid_selected count width height x _ Hc
                ltac:(lia) ltac:(lia) E) as (cx & cy & sp & Hgrid & _).
    exists x, cx, cy, sp. split; [exact Hx|]. split; [exact Hgrid|].
    split; [exact Hp|]. intros y Hy Hpy.
    assert (Hle : (candidate_waste count width height x
                   <= candidate_waste count width height y)%Q)
      by (apply Hleast; [now apply in_range | exact Hpy]).
    split; [exact Hle|].
    apply (waste_le_size_ge count width height x y); try lia. exact Hle.
Qed.

Lemma compute_grid_least_waste_witness :
  exists x cx cy sp,
    1 <= x < 180
    /\ compute_grid 5 180 240 = Ok (candidate_size 180 x, cx, cy, sp)
    /\ (0 <= candidate_waste 5 180 240 x)%Q
    /\ (forall y, 1 <= y < 180 ->
          (0 <= candidate_waste 5 180 240 y)%Q ->
          (candidate_waste 5 180 240 x <= candidate_waste 5 180 240 y)%Q
          /\ (candidate_size 180 y <= candidate_size 180 x)%Q).
Proof.
  apply (compute_grid_least_waste 5 180 240); try lia.
  exists 2. split; [lia|]. vm_compute. discriminate.
Defined.

(** The layout for a selected column count [x]: the rows are the whole
    number of rows that [count] tiles need in [x] columns. *)
Lemma compute_grid_rows (count width height x : Z) (min_waste : Q) :
  1 <= count -> 0 < width -> 0 < x ->
  grid_scan count width height (range 1 width)
    = (min_waste, candidate_size width x) ->
  exists cx cy sp rows,
    compute_grid count width height = Ok (candidate_size width x, cx, cy, sp)
    /\ (cx == inject_Z x)%Q
    /\ (cy == inject_Z rows)%Q
    /\ (rows - 1) * x < count <= rows * x
    /\ (sp == (inject_Z height - cy * candidate_size width x) / cy)%Q.
Proof.
  intros Hc Hw Hx Hscan. unfold compute_grid. rewrite Hscan.
  pose proof (candidate_size_pos _ _ Hw Hx) as Hs.
  pose proof (columns_of_candidate _ _ Hw Hx) as Hcx.
  pose proof (inject_Z_pos _ Hx) as Hxq.
  assert (Hcq : (1 <= inject_Z count)%Q)
    by (unfold Qle, inject_Z; simpl; lia).
  set (s := candidate_size width x) in *.
  rewrite py_div_ok by lra. cbn [bind].
  set (cx := (inject_Z width / s)%Q) in *.
  assert (Hcx0 : ~ (cx == 0)%Q) by lra.
  rewrite py_floordiv_ok, py_mod_ok by exact Hcx0. cbn [bind].
  set (q := (inject_Z count / cx)%Q).
  pose proof (Qfloor_le q) as Hfl.
  pose proof (Qlt_floor q) as Hfu.
  rewrite inject_Z_plus in Hfu. change (inject_Z 1) with 1%Q in Hfu.
  assert (Hq : (q * inject_Z x == inject_Z count)%Q)
    by (unfold q; rewrite Hcx; field; lra).
  set (f := Qfloor q) in *.
  assert (Hlo : f * x <= count).
  { rewrite Zle_Qle, inject_Z_mult. nra. }
  assert (Hhi : count < (f + 1) * x).
  { rewrite Zlt_Qlt, inject_Z_mult, inject_Z_plus.
    change (inject_Z 1) with 1%Q. nra. }
  assert (Hf0 : 0 <= f) by nia.
  destruct (Qltb 0 (inject_Z count - cx * inject_Z f)) eqn:Hr.
  - apply Qltb_true in Hr.
    assert (Hne : f * x <> count).
    { intros E. apply (f_equal inject_Z) in E. rewrite inject_Z_mult in E.
      rewrite Hcx in Hr. rewrite <- E in Hr. lra. }
    assert (H1 : (1 <= inject_Z f + 1)%Q).
    { change 1%Q with (inject_Z 1). rewrite <- inject_Z_plus, <- Zle_Qle. lia. }
    rewrite py_div_ok by lra. cbn [bind].
    eexists cx, (inject_Z f + 1)%Q, _, (f + 1). split; [reflexivity|].
    split; [exact Hcx|]. split.
    { rewrite inject_Z_plus. reflexivity. }
    split; [|reflexivity].
    replace (f + 1 - 1) with f by lia. lia.
  - apply Qltb_false in Hr. rewrite Hcx in Hr.
    assert (Heq : count <= f * x).
    { rewrite Zle_Qle, inject_Z_mult. lra. }
    assert (H1 : (1 <= inject_Z f)%Q).
    { change 1%Q with (inject_Z 1). rewrite <- Zle_Qle. nia. }
    rewrite py_div_ok by lra. cbn [bind].
    eexists cx, (inject_Z f), _, f. split; [reflexivity|].
    split; [exact Hcx|]. split; [reflexivity|]. split; [|reflexivity].
    nia.
Qed.



(** ** The merge pass: what it keeps *)

(** A step opens a session for the track or appends the track to the last
    session. *)
Lemma merge_step_cases (merged merged' : list Track.t)
    (last last' : option datetime.t) (t : Track.t) :
  merge_step (merged, last) t = Ok (merged', last') ->
  merged' = merged ++ [t]
  \/ exists sessions s,
       merged = sessions ++ [s] /\ merged' = sessions ++ [Track.append s t].
Proof.
  unfold merge_step. destruct last as [l|]; cbn [bind].
  - destruct (time_distance t l) as [dt|e]; cbn [bind]; [|discriminate].
    destruct (within_one_hour dt); cbn [bind].
    + unfold append_to_last. destruct (rev merged) as [|m before] eqn:E;
        cbn [bind]; [discriminate|].
      intros H. inversion H; subst. right. exists (rev before), m.
      split; [|reflexivity].
      apply (f_equal (@rev Track.t)) in E. rewrite rev_involutive in E.
      exact E.
    + intros H. inversion H. now left.
  - intros H. inversion H. now left.
Qed.

Lemma sum_lengths_app (xs ys : list Track.t) :
  (sum_lengths (xs ++ ys) == sum_lengths xs + sum_lengths ys)%Q.
Proof.
  induction xs as [|x xs IH].
  - cbn [app]. change (sum_lengths []) with 0%Q. lra.
  - cbn [sum_lengths app fold_right].
    fold (sum_lengths (xs ++ ys)) (sum_lengths xs). rewrite IH. ring.
Qed.

Section MergeKeeps.

Context {A : Type} (f : Track.t -> list A).
Hypothesis f_append : forall a b, f (Track.append a b) = f a ++ f b.

Lemma merge_step_concat (merged merged' : list Track.t)
    (last last' : option datetime.t) (t : Track.t) :
  merge_step (merged, last) t = Ok (merged', last') ->
  concat (map f merged') = concat (map f merged) ++ f t.
Proof.
  intros H. apply merge_step_cases in H as [-> | (ms & s & -> & ->)].
  - rewrite map_app, concat_app. cbn. now rewrite app_nil_r.
  - rewrite !map_app, !concat_app. cbn. rewrite !app_nil_r, f_append.
    now rewrite app_assoc.
Qed.

Lemma merge_loop_concat (ts : list Track.t) : forall merged merged' last last',
  merge_loop (merged, last) ts = Ok (merged', last') ->
  concat (map f merged') = concat (map f merged) ++ concat (map f ts).
Proof.
  induction ts as [|t ts IH]; intros merged merged' last last';
    cbn [merge_loop].
  - intros H. inversion H. cbn. now rewrite app_nil_r.
  - destruct (merge_step (merged, last) t) as [[m1 l1]|e] eqn:E;
      cbn [bind]; [|discriminate].
    intros H. rewrite (IH _ _ _ _ H), (merge_step_concat _ _ _ _ _ E).
    cbn [map concat]. now rewrite app_assoc.
Qed.

End MergeKeeps.

Lemma sum_lengths_one (t : Track.t) : (sum_lengths [t] == Track.length t)%Q.
Proof. cbn [sum_lengths fold_right]. ring. Qed.

Lemma merge_loop_sum (ts : list Track.t) : forall merged merged' last last',
  merge_loop (merged, last) ts = Ok (merged', last') ->
  (sum_lengths merged' == sum_lengths merged + sum_lengths ts)%Q
  /\ (List.length merged' <= List.length merged + List.length ts)%nat.
Proof.
  induction ts as [|t ts IH]; intros merged merged' last last';
    cbn [merge_loop].
  - intros H. inversion H. change (sum_lengths []) with 0%Q.
    split; [lra | cbn; lia].
  - destruct (merge_step (merged, last) t) as [[m1 l1]|e] eqn:E;
      cbn [bind]; [|discriminate].
    intros H. destruct (IH _ _ _ _ H) as [Hsum Hlen].
    change (t :: ts) with ([t] ++ ts). rewrite (sum_lengths_app [t] ts).
    rewrite sum_lengths_one.
    apply merge_step_cases in E as [-> | (ms & s & -> & ->)].
    + rewrite Hsum, sum_lengths_app, sum_lengths_one.
      rewrite !length_app in *. cbn [List.length] in *. split; [ring | lia].
    + rewrite Hsum, !sum_lengths_app, !sum_lengths_one.
      rewrite !length_app in *. cbn [List.length Track.append Track.length] in *.
      split; [ring | lia].
Qed.

(** X7: the merge pass loses and adds nothing.  When it returns, the file
    names of the sessions, put end to end, are the file names of the tracks
    in their order, and so are the polylines; the lengths of the sessions
    add up to the lengths of the tracks; and there are no more sessions
    than tracks. *)
Theorem merge_tracks_keeps (ts merged : list Track.t) :
  merge_tracks ts = Ok merged ->
  concat (map Track.file_names merged) = concat (map Track.file_names ts)
  /\ concat (map Track.polylines merged) = concat (map Track.polylines ts)
  /\ (sum_lengths merged == sum_lengths ts)%Q
  /\ (List.length merged <= List.length ts)%nat.
Proof.
  unfold merge_tracks.
  destruct (merge_loop ([], None) ts) as [[m l]|e] eqn:E; cbn [bind];
    [|discriminate].
  intros H. inversion H; subst merged. cbn [fst].
  split; [exact (merge_loop_concat Track.file_names (fun _ _ => eq_refl) _ _ _ _ _ E)|].
  split; [exact (merge_loop_concat Track.polylines (fun _ _ => eq_refl) _ _ _ _ _ E)|].
  destruct (merge_loop_sum _ _ _ _ _ E) as [Hsum Hlen].
  change (sum_lengths []) with 0%Q in Hsum. cbn [List.length] in Hlen.
  split; [rewrite Hsum; ring | exact Hlen].
Qed.

Lemma merge_tracks_keeps_witness :
  exists merged,
    merge_tracks [ends_at_noon; starts_at 12 30 0] = Ok merged
    /\ concat (map Track.file_names merged) = ["a.gpx"; "b.gpx"]%string
    /\ (List.length merged <= 2)%nat.
Proof.
  eexists. split; [vm_compute; reflexivity|].
  destruct (merge_tracks_keeps [ends_at_noon; starts_at 12 30 0] _
              merge_gap_1800) as (Hn & _ & _ & Hl).
  split; [exact Hn | exact Hl].
Defined.

(** ** load_tracks: the order of the sessions *)

Lemma lex_ltb_asym (a : list Z) : forall b,
  List.length a = List.length b ->
  datetime.lex_ltb a b = true -> datetime.lex_ltb b a = false.
Proof.
  induction a as [|x a IH]; intros [|y b] Hlen; cbn; try discriminate.
  injection Hlen as Hlen. intros H.
  apply orb_true_iff in H as [H|H].
  - apply Z.ltb_lt in H. apply orb_false_iff. split; [apply Z.ltb_ge; lia|].
    apply andb_false_iff. left. apply Z.eqb_neq. lia.
  - apply andb_true_iff in H as [Hxy H]. apply Z.eqb_eq in Hxy. subst y.
    rewrite Z.ltb_irrefl, Z.eqb_refl. cbn. now apply IH.
Qed.

Lemma lex_ltb_false_trans (a : list Z) : forall b c,
  List.length a = List.length b -> List.length b = List.length c ->
  datetime.lex_ltb b a = false -> datetime.lex_ltb c b = false ->
  datetime.lex_ltb c a = false.
Proof.
  induction a as [|x a IH]; intros [|y b] [|z c] Hab Hbc; cbn;
    try discriminate; try reflexivity.
  injection Hab as Hab. injection Hbc as Hbc. intros H1 H2.
  apply orb_false_iff in H1 as [H1 H1']. apply orb_false_iff in H2 as [H2 H2'].
  apply Z.ltb_ge in H1, H2.
  apply orb_false_iff. split; [apply Z.ltb_ge; lia|].
  destruct (Z.eqb_spec z x) as [->|Hne]; [|reflexivity]. cbn.
  assert (y = x) by lia. subst y.
  rewrite Z.eqb_refl in H1', H2'. cbn in H1', H2'. now apply (IH b c).
Qed.

Lemma fields_length (d : datetime.t) : List.length (datetime.fields d) = 7%nat.
Proof. reflexivity. Qed.

Lemma start_ltb_asym (a b : Track.t) :
  start_ltb a b = true -> start_ltb b a = false.
Proof.
  unfold start_ltb.
  destruct (Track.start_time a) as [x|], (Track.start_time b) as [y|];
    try discriminate; try reflexivity.
  apply lex_ltb_asym. now rewrite !fields_length.
Qed.

Lemma start_le_trans (a b c : Track.t) :
  start_le a b -> start_le b c -> start_le a c.
Proof.
  unfold start_le, start_ltb.
  destruct (Track.start_time a) as [x|], (Track.start_time b) as [y|],
           (Track.start_time c) as [z|]; try discriminate; try reflexivity.
  unfold datetime.ltb. apply lex_ltb_false_trans; now rewrite !fields_length.
Qed.

Lemma insert_sorted_In (t x : Track.t) (sorted : list Track.t) :
  In x (insert_sorted t sorted) -> x = t \/ In x sorted.
Proof.
  induction sorted as [|u rest IH]; cbn [insert_sorted].
  - intros [<-|[]]. now left.
  - destruct (start_ltb t u).
    + intros [<-|H]; auto.
    + intros [<-|H]; [right; now left|].
      destruct (IH H) as [->|H']; [now left | right; now right].
Qed.

Lemma insert_sorted_sorted (t : Track.t) (sorted : list Track.t) :
  StronglySorted start_le sorted ->
  StronglySorted start_le (insert_sorted t sorted).
Proof.
  induction 1 as [|u rest Hrest IH Hu]; cbn [insert_sorted].
  - repeat constructor.
  - destruct (start_ltb t u) eqn:E.
    + constructor; [now constructor|].
      apply start_ltb_asym in E. constructor; [exact E|].
      rewrite List.Forall_forall in *. intros r Hr.
      apply (start_le_trans t u r); [exact E | now apply Hu].
    + constructor; [exact IH|].
      rewrite List.Forall_forall in *. intros r Hr.
      apply insert_sorted_In in Hr as [->|Hr]; [exact E | now apply Hu].
Qed.

Lemma sorted_by_start_time_sorted (tracks : list Track.t) :
  StronglySorted start_le (sorted_by_start_time tracks).
Proof.
  unfold sorted_by_start_time.
  assert (H : forall acc, StronglySorted start_le acc ->
                StronglySorted start_le
                  (fold_left (fun acc t => insert_sorted t acc) tracks acc)).
  { induction tracks as [|t tracks IH]; intros acc Hacc; cbn [fold_left];
      [exact Hacc|].
    apply IH. now apply insert_sorted_sorted. }
  apply H. constructor.
Qed.

(** Dropping the element after [s], and taking for [s] a track with the same
    start time, keeps a list in order. *)
Lemma sorted_merge_last (before : list Track.t) (s s' t : Track.t)
    (rest : list Track.t) :
  Track.start_time s' = Track.start_time s ->
  StronglySorted start_le (before ++ s :: t :: rest) ->
  StronglySorted start_le (before ++ s' :: rest).
Proof.
  intros Hstart.
  assert (Hl : forall u, start_le s u -> start_le s' u)
    by (intros u; unfold start_le, start_ltb; now rewrite Hstart).
  assert (Hr : forall u, start_le u s -> start_le u s')
    by (intros u; unfold start_le, start_ltb; now rewrite Hstart).
  induction before as [|b before IH]; cbn [app]; intros H.
  - inversion H as [|? ? Hs Hfa]; subst.
    inversion Hs as [|? ? Hrest Hfa']; subst.
    inversion Hfa as [|? ? _ Hfa'']; subst.
    constructor; [exact Hrest|].
    eapply List.Forall_impl; [|exact Hfa'']. exact Hl.
  - inversion H as [|? ? Hs Hfa]; subst. constructor; [now apply IH|].
    rewrite List.Forall_forall in *. intros u Hu.
    apply in_app_or in Hu as [Hu|[<-|Hu]].
    + apply Hfa. apply in_or_app. now left.
    + apply Hr, Hfa. apply in_or_app. right. now left.
    + apply Hfa. apply in_or_app. right. right. now right.
Qed.

Lemma merge_loop_sorted (ts : list Track.t) : forall merged merged' last last',
  StronglySorted start_le (merged ++ ts) ->
  merge_loop (merged, last) ts = Ok (merged', last') ->
  StronglySorted start_le merged'.
Proof.
  induction ts as [|t ts IH]; intros merged merged' last last' Hs;
    cbn [merge_loop].
  - intros H. inversion H; subst. now rewrite app_nil_r in Hs.
  - destruct (merge_step (merged, last) t) as [[m1 l1]|e] eqn:E;
      cbn [bind]; [|discriminate].
    apply IH.
    apply merge_step_cases in E as [-> | (ms & s & -> & ->)].
    + now rewrite <- app_assoc.
    + rewrite <- app_assoc in *. cbn [app] in *.
      apply (sorted_merge_last ms s (Track.append s t) t ts); [reflexivity|].
      exact Hs.
Qed.

Lemma filter_sorted (keep : Track.t -> bool) (l : list Track.t) :
  StronglySorted start_le l -> StronglySorted start_le (List.filter keep l).
Proof.
  induction 1 as [|u rest Hrest IH Hu]; cbn [List.filter]; [constructor|].
  destruct (keep u); [|exact IH]. constructor; [exact IH|].
  rewrite List.Forall_forall in *. intros r Hr.
  apply filter_In in Hr as [Hr _]. now apply Hu.
Qed.

(** X8: the sessions that [load_tracks] returns are in the order of their
    start times: no session starts before one that precedes it in the
    list. *)
Theorem load_tracks_in_order (dirs : gmap string (list dir_entry))
    (cache cache' : cache_dir) (base_dir : string) (year : Z)
    (highlight_filenames : list string) (out : list Track.t) :
  load_tracks dirs cache base_dir year highlight_filenames = (Ok out, cache') ->
  StronglySorted start_le out.
Proof.
  unfold load_tracks.
  destruct (list_gpx_files dirs base_dir) as [files|e]; [|discriminate].
  destruct (fold_left _ files ([], cache)) as [tracks c].
  destruct (merge_tracks (sorted_by_start_time tracks)) as [merged|e] eqn:E;
    cbn [bind]; [|discriminate].
  intros H. inversion H; subst. apply filter_sorted.
  unfold merge_tracks in E.
  destruct (merge_loop ([], None) (sorted_by_start_time tracks))
    as [[m l]|e] eqn:Hloop; cbn [bind] in E; [|discriminate].
  inversion E; subst. cbn [fst].
  apply (merge_loop_sorted (sorted_by_start_time tracks) [] _ None l);
    [exact (sorted_by_start_time_sorted tracks) | exact Hloop].
Qed.

Lemma load_tracks_in_order_witness :
  exists out,
    fst (load_tracks {[ "runs"%string := runs ]} ∅ "runs" 2016 ["b.gpx"%string])
    = Ok out
    /\ StronglySorted start_le out.
Proof.
  destruct (load_tracks {[ "runs"%string := runs ]} ∅ "runs" 2016 ["b.gpx"%string])
    as [r c] eqn:E.
  pose proof load_tracks_scenario as Hs. rewrite E in Hs. cbn [fst] in Hs.
  subst r. eexists. split; [reflexivity|].
  exact (load_tracks_in_order _ _ _ _ _ _ _ E).
Defined.

(** ** load_gpx and the cache *)

Lemma load_segments_keeps (data_lines : list json) : forall self,
  Track.file_names (fst (Track.load_segments self data_lines))
  = Track.file_names self
  /\ Track.highlight (fst (Track.load_segments self data_lines))
     = Track.highlight self.
Proof.
  induction data_lines as [|d rest IH]; intros self; cbn [Track.load_segments].
  - now split.
  - destruct (bind (iter d) (map_result Track.point_of)) as [line|e];
      [|now split].
    destruct (IH (Track.set_polylines (Track.polylines self ++ [line]) self))
      as [H1 H2]. now split.
Qed.

(** [load_cache] leaves the file names and the highlight flag alone, whether
    it returns or raises. *)
Lemma load_cache_keeps (self : Track.t) (checksum : string) (cache : cache_dir) :
  Track.file_names (fst (Track.load_cache self checksum cache))
  = Track.file_names self
  /\ Track.highlight (fst (Track.load_cache self checksum cache))
     = Track.highlight self.
Proof.
  unfold Track.load_cache.
  destruct (cache !! checksum) as [[|data]|]; try now split.
  unfold Track.load_data.
  destruct (bind (getitem data "start") strptime) as [st|]; [|now split].
  destruct (bind (getitem data "end") strptime) as [et|]; [|now split].
  destruct (bind (getitem data "length") float) as [len|]; [|now split].
  destruct (bind (getitem data "segments") iter) as [data_lines|]; [|now split].
  destruct (load_segments_keeps data_lines
              (Track.set_polylines []
                 (Track.set_length len
                    (Track.set_end_time (Some et)
                       (Track.set_start_time (Some st) self))))) as [H1 H2].
  now split.
Qed.

Lemma store_cache_locality (self : Track.t) (checksum : string)
    (cache : cache_dir) :
  (forall key, key <> checksum ->
     snd (Track.store_cache self checksum cache) !! key = cache !! key)
  /\ (forall key, cache !! key <> None ->
        snd (Track.store_cache self checksum cache) !! key <> None).
Proof.
  unfold Track.store_cache.
  destruct (Track.start_time self) as [st|], (Track.end_time self) as [et|];
    cbn [snd]; (split; [intros key Hkey; now rewrite lookup_insert_ne|]);
    intros key Hkey; (destruct (decide (checksum = key)) as [->|Hne];
      [rewrite lookup_insert_eq; discriminate
      |now rewrite lookup_insert_ne]).
Qed.

(** Whenever [load_gpx] returns, the Track has the base name of the file as
    its only file name and the highlight flag that it had before. *)
Lemma load_gpx_returns_fields (self t : Track.t) (name : string)
    (file : gpx_file) (cache cache' : cache_dir) :
  Track.load_gpx self name file cache = (t, Ok tt, cache') ->
  Track.file_names t = [name] /\ Track.highlight t = Track.highlight self.
Proof.
  unfold Track.load_gpx, Track.load_gpx_no_cache.
  pose proof (load_cache_keeps self (sha256 file) cache) as [_ Hh].
  assert (Hparse : forall s,
    Track.highlight s = Track.highlight self ->
    match parse file with
    | Ok gpx =>
        let self0 := Track.set_file_names [name] s in
        let self1 := Track.set_start_time (fst (get_time_bounds gpx)) self0 in
        let self2 := Track.set_end_time (snd (get_time_bounds gpx)) self1 in
        let self3 := Track.set_length (length_2d gpx) self2 in
        let self4 := Track.set_polylines (Track.polylines self3 ++ segments gpx) self3 in
        let '(r, cache0) := Track.store_cache self4 (sha256 file) cache in
        (self4, r, cache0)
    | Raise e => (Track.set_file_names [name] s, Raise e, cache)
    end = (t, Ok tt, cache') ->
    Track.file_names t = [name] /\ Track.highlight t = Track.highlight self).
  { intros s Hs. destruct (parse file) as [gpx|e]; [|discriminate].
    cbv zeta. destruct (Track.store_cache _ _ _) as [r c].
    intros H. inversion H; subst. split; [reflexivity | exact Hs]. }
  destruct (cache !! sha256 file).
  - destruct (Track.load_cache self (sha256 file) cache) as [s [[]|e]].
    + intros H. inversion H; subst. split; [reflexivity | exact Hh].
    + apply Hparse. exact Hh.
  - apply Hparse. reflexivity.
Qed.

(** X9: [load_gpx] writes to the cache at most under the checksum of the
    file: every other entry is as it was before, whatever [load_gpx]
    returns or raises; and an entry that [load_cache] loads is not written
    at all. *)
Theorem load_gpx_cache_locality (self : Track.t) (name : string)
    (file : gpx_file) (cache : cache_dir) :
  (forall key, key <> sha256 file ->
     snd (Track.load_gpx self name file cache) !! key = cache !! key)
  /\ (snd (Track.load_cache self (sha256 file) cache) = Ok tt ->
      snd (Track.load_gpx self name file cache) = cache)
  /\ (forall key, cache !! key <> None ->
        snd (Track.load_gpx self name file cache) !! key <> None).
Proof.
  assert (Hno : forall s,
    (forall key, key <> sha256 file ->
       snd (Track.load_gpx_no_cache s name file cache) !! key = cache !! key)
    /\ (forall key, cache !! key <> None ->
          snd (Track.load_gpx_no_cache s name file cache) !! key <> None)).
  { intros s. unfold Track.load_gpx_no_cache.
    destruct (parse file) as [gpx|e]; [|now split]. cbv zeta.
    match goal with
    | |- context [Track.store_cache ?x ?k ?c] =>
        pose proof (store_cache_locality x k c) as H;
        destruct (Track.store_cache x k c) as [r c']
    end.
    exact H. }
  unfold Track.load_gpx.
  destruct (cache !! sha256 file) eqn:Hfile.
  - destruct (Track.load_cache self (sha256 file) cache) as [s [[]|e]];
      cbn [snd].
    + repeat split; auto.
    + destruct (Hno s) as [H1 H2]. split; [exact H1|].
      split; [discriminate | exact H2].
  - destruct (Hno self) as [H1 H2]. split; [exact H1|]. split; [|exact H2].
    unfold Track.load_cache. rewrite Hfile. discriminate.
Qed.

Lemma load_gpx_cache_locality_witness :
  snd (Track.load_gpx Track.init "a.gpx" recording
         {[ "other"%string := NotJson ]}) !! "other"%string
  = Some NotJson.
Proof.
  rewrite (proj1 (load_gpx_cache_locality Track.init "a.gpx" recording
                    {[ "other"%string := NotJson ]}) "other"%string).
  - reflexivity.
  - discriminate.
Defined.



(** X11: a file that parses but has no time bounds is never loaded.  With no
    cache entry, or one that is not JSON, [load_gpx] raises
    [AttributeError] from [store_cache] and leaves an entry that is not
    JSON, so the next load does the same; the loading loop adds no track
    for the file. *)
Theorem load_gpx_without_times (self : Track.t) (name : string)
    (file : gpx_file) (cache : cache_dir) (g : GPX)
    (year : Z) (highlight_filenames : list string) (tracks : list Track.t) :
  parse file = Ok g ->
  fst (get_time_bounds g) = None \/ snd (get_time_bounds g) = None ->
  cache !! sha256 file = None \/ cache !! sha256 file = Some NotJson ->
  snd (fst (Track.load_gpx self name file cache)) = Raise AttributeError
  /\ snd (Track.load_gpx self name file cache)
     = <[sha256 file := NotJson]> cache
  /\ snd (Track.load_gpx self name file cache) !! sha256 file = Some NotJson
  /\ load_one year highlight_filenames (tracks, cache) (name, file)
     = (tracks, <[sha256 file := NotJson]> cache).
Proof.
  intros Hparse Hb Hc.
  assert (Hload : forall s,
    exists t, Track.load_gpx s name file cache
              = (t, Raise AttributeError, <[sha256 file := NotJson]> cache)).
  { intros s.
    assert (Hno : forall s', exists t,
      Track.load_gpx_no_cache s' name file cache
      = (t, Raise AttributeError, <[sha256 file := NotJson]> cache)).
    { intros s'. unfold Track.load_gpx_no_cache. rewrite Hparse. cbv zeta.
      unfold Track.store_cache.
      cbn [Track.start_time Track.end_time Track.set_polylines
           Track.set_length Track.set_end_time Track.set_start_time
           Track.set_file_names].
      destruct Hb as [-> | ->].
      - eexists. reflexivity.
      - destruct (fst (get_time_bounds g)); eexists; reflexivity. }
    unfold Track.load_gpx, Track.load_cache.
    destruct Hc as [-> | ->]; apply Hno. }
  destruct (Hload self) as [t Ht]. rewrite Ht. cbn [fst snd].
  split; [reflexivity|]. split; [reflexivity|].
  split; [apply lookup_insert_eq|].
  unfold load_one. destruct (Hload Track.init) as [t0 Ht0]. now rewrite Ht0.
Qed.

Lemma load_gpx_without_times_witness :
  snd (fst (Track.load_gpx Track.init "untimed.gpx"
              (gpx "uu" None None 4000 [[(8, 8); (9, 9)]%Q]) ∅))
  = Raise AttributeError.
Proof.
  eapply (proj1 (load_gpx_without_times Track.init "untimed.gpx"
                   (gpx "uu" None None 4000 [[(8, 8); (9, 9)]%Q]) ∅ _
                   2016 [] [] eq_refl (or_introl eq_refl)
                   (or_introl (lookup_empty _)))).
Defined.

(** ** list_gpx_files *)

Lemma string_length_append (a b : string) :
  String.length (String.append a b) = (String.length a + String.length b)%nat.
Proof.
  induction a as [|c a IH]; [reflexivity|].
  change (S (String.length (String.append a b))
          = S (String.length a + String.length b)).
  now f_equal.
Qed.

Lemma substring_whole (s : string) : substring 0 (String.length s) s = s.
Proof. induction s as [|c s IH]; cbn; [reflexivity | now rewrite IH]. Qed.

Lemma substring_after (a b : string) :
  substring (String.length a) (String.length b) (String.append a b) = b.
Proof. induction a as [|c a IH]; cbn; [apply substring_whole | exact IH]. Qed.

Lemma substring_split (s : string) : forall m,
  (m <= String.length s)%nat ->
  String.append (substring 0 m s) (substring m (String.length s - m) s) = s.
Proof.
  induction s as [|c s IH]; intros [|m] Hm; cbn in Hm; try lia.
  - reflexivity.
  - change (substring 0 (S (String.length s)) (String c s) = String c s).
    apply (substring_whole (String c s)).
  - change (String c (String.append (substring 0 m s)
                        (substring m (String.length s - m) s)) = String c s).
    f_equal. apply IH. lia.
Qed.

Lemma endswith_iff (name suffix : string) :
  endswith name suffix = true <-> exists stem, name = String.append stem suffix.
Proof.
  unfold endswith. rewrite andb_true_iff, Nat.leb_le, String.eqb_eq. split.
  - intros [Hle Hsub].
    exists (substring 0 (String.length name - String.length suffix) name).
    rewrite <- Hsub at 2.
    rewrite <- (substring_split name (String.length name - String.length suffix))
      at 1 by lia.
    do 2 f_equal. lia.
  - intros [stem ->]. rewrite string_length_append. split; [lia|].
    replace (String.length stem + String.length suffix - String.length suffix)%nat
      with (String.length stem) by lia.
    apply substring_after.
Qed.

(** X12: [list_gpx_files] raises for a path that is no directory; for a
    directory it yields, in the order of the listing, exactly the regular
    files whose name is some stem followed by ".gpx". *)
Theorem list_gpx_files_lists (dirs : gmap string (list dir_entry))
    (base_dir : string) :
  (dirs !! base_dir = None ->
   list_gpx_files dirs base_dir = Raise NotADirectory)
  /\ (forall entries, dirs !! base_dir = Some entries ->
        exists files,
          list_gpx_files dirs base_dir = Ok files
          /\ (forall name f,
                In (name, f) files
                <-> In (File name f) entries
                    /\ exists stem, name = String.append stem ".gpx")
          /\ files `sublist_of`
               omap (fun e => match e with
                              | File name f => Some (name, f)
                              | Subdir _ => None
                              end) entries).
Proof.
  unfold list_gpx_files. split; [now intros ->|].
  intros entries ->. eexists. split; [reflexivity|]. split.
  - intros name f. rewrite <- list_elem_of_In, list_elem_of_omap. split.
    + intros (e & He & Hsome). destruct e as [n g|n]; [|discriminate].
      destruct (endswith n ".gpx") eqn:E; [|discriminate].
      inversion Hsome; subst. split; [now apply list_elem_of_In|].
      now apply endswith_iff.
    + intros [Hin Hstem]. exists (File name f).
      split; [now apply list_elem_of_In|].
      apply endswith_iff in Hstem. now rewrite Hstem.
  - induction entries as [|e entries IH]; cbn [omap list_omap]; [constructor|].
    destruct e as [n g|n]; [|exact IH].
    destruct (endswith n ".gpx"); [now constructor | now constructor].
Qed.

Lemma list_gpx_files_lists_witness :
  exists files,
    list_gpx_files {[ "runs"%string := runs ]} "runs" = Ok files
    /\ In ("a.gpx"%string,
           gpx "aa" (Some (on_may_first 9 0 0)) (Some (on_may_first 10 0 0))
             800 [[(1, 1); (2, 2)]%Q]) files.
Proof.
  destruct (proj2 (list_gpx_files_lists {[ "runs"%string := runs ]} "runs")
              runs (lookup_singleton_eq _ _)) as (files & Hf & Hin & _).
  exists files. split; [exact Hf|]. apply Hin. split.
  - right. now left.
  - exists "a"%string. reflexivity.
Defined.

(** ** load_tracks: the files and the highlight of the sessions *)

Local Open Scope Z_scope.

Lemma list_gpx_files_In (dirs : gmap string (list dir_entry))
    (base_dir : string) (files : list (string * gpx_file)) :
  list_gpx_files dirs base_dir = Ok files ->
  exists entries,
    dirs !! base_dir = Some entries
    /\ forall name f, In (name, f) files ->
         In (File name f) entries /\ endswith name ".gpx" = true.
Proof.
  unfold list_gpx_files. destruct (dirs !! base_dir) as [entries|];
    [|discriminate].
  intros H. inversion H; subst files. exists entries. split; [reflexivity|].
  intros name f Hin. apply list_elem_of_In, list_elem_of_omap in Hin
    as (e & He & Hsome).
  destruct e as [n g|n]; [|discriminate].
  destruct (endswith n ".gpx") eqn:E; [|discriminate].
  inversion Hsome; subst. split; [now apply list_elem_of_In | exact E].
Qed.

Lemma traced_append (files : list (string * gpx_file)) (hl : list string)
    (a b : Track.t) :
  traced files hl a -> traced files hl b -> traced files hl (Track.append a b).
Proof.
  intros (Ha1 & Ha2 & Ha3) (Hb1 & Hb2 & Hb3). unfold traced.
  cbn [Track.append Track.file_names Track.highlight]. split.
  - intros E. apply app_eq_nil in E as [E _]. contradiction.
  - split.
    + intros n Hn. apply in_app_or in Hn as [Hn|Hn]; auto.
    + now rewrite existsb_app, Ha3, Hb3.
Qed.

Lemma load_one_traced (year : Z) (hl : list string)
    (files : list (string * gpx_file)) (st : list Track.t * cache_dir)
    (nf : string * gpx_file) :
  In nf files ->
  Forall (traced files hl) (fst st) ->
  Forall (traced files hl) (fst (load_one year hl st nf)).
Proof.
  destruct st as [tracks cache], nf as [name file]. cbn [fst]. intros Hnf Hall.
  unfold load_one.
  destruct (Track.load_gpx Track.init name file cache) as [[t [[]|e]] cache']
    eqn:Hload; [|exact Hall].
  apply load_gpx_returns_fields in Hload as [Hnames Hflag].
  set (t' := if contains hl name then Track.set_is_highlight true t else t).
  assert (Ht' : traced files hl t').
  { unfold traced, t'. destruct (contains hl name) eqn:Hc;
      cbn [Track.set_is_highlight Track.file_names Track.highlight];
      rewrite Hnames; cbn [existsb]; rewrite Hc.
    - split; [discriminate|]. split; [|reflexivity].
      intros n [<-|[]]. now exists file.
    - split; [discriminate|]. split; [|exact Hflag].
      intros n [<-|[]]. now exists file. }
  destruct (Qeq_bool (Track.length t') 0); [exact Hall|].
  destruct (Track.start_time t') as [s|]; [|exact Hall].
  destruct (negb (datetime.year s =? year)); [exact Hall|]. cbn [fst].
  apply Forall_app. split; [exact Hall|]. constructor; [exact Ht' | constructor].
Qed.

Lemma load_all_traced (year : Z) (hl : list string)
    (files : list (string * gpx_file)) (rest : list (string * gpx_file)) :
  forall st,
  incl rest files ->
  Forall (traced files hl) (fst st) ->
  Forall (traced files hl) (fst (fold_left (load_one year hl) rest st)).
Proof.
  induction rest as [|nf rest IH]; intros st Hincl Hall; cbn [fold_left];
    [exact Hall|].
  apply IH.
  - intros x Hx. apply Hincl. now right.
  - apply load_one_traced; [apply Hincl; now left | exact Hall].
Qed.

Section MergeForall.

Variable P : Track.t -> Prop.
Hypothesis P_append : forall a b, P a -> P b -> P (Track.append a b).

Lemma merge_loop_Forall (ts : list Track.t) : forall merged merged' last last',
  Forall P merged -> Forall P ts ->
  merge_loop (merged, last) ts = Ok (merged', last') ->
  Forall P merged'.
Proof.
  induction ts as [|t ts IH]; intros merged merged' last last' Hm Hts;
    cbn [merge_loop].
  - intros H. now inversion H; subst.
  - inversion Hts as [|? ? Ht Hrest]; subst.
    destruct (merge_step (merged, last) t) as [[m1 l1]|e] eqn:E;
      cbn [bind]; [|discriminate].
    apply IH; [|exact Hrest].
    apply merge_step_cases in E as [-> | (ms & s & -> & ->)].
    + apply Forall_app. split; [exact Hm|].
      constructor; [exact Ht | constructor].
    + apply Forall_app in Hm as [Hms Hs]. inversion Hs as [|? ? Hps _]; subst.
      apply Forall_app. split; [exact Hms|].
      constructor; [now apply P_append | constructor].
Qed.

End MergeForall.

(** Every session of the output is traced to the files of the listing. *)
Lemma load_tracks_traced (dirs : gmap string (list dir_entry))
    (cache cache' : cache_dir) (base_dir : string) (year : Z)
    (hl : list string) (out : list Track.t) :
  load_tracks dirs cache base_dir year hl = (Ok out, cache') ->
  exists files,
    list_gpx_files dirs base_dir = Ok files
    /\ Forall (traced files hl) out.
Proof.
  unfold load_tracks.
  destruct (list_gpx_files dirs base_dir) as [files|e]; [|discriminate].
  pose proof (load_all_traced year hl files files ([], cache)
                (incl_refl _) (List.Forall_nil _)) as Htr.
  destruct (fold_left _ files ([], cache)) as [tracks c]. cbn [fst] in Htr.
  destruct (merge_tracks (sorted_by_start_time tracks)) as [merged|e] eqn:E;
    cbn [bind]; [|discriminate].
  intros H. inversion H; subst. exists files. split; [reflexivity|].
  unfold merge_tracks in E.
  destruct (merge_loop ([], None) (sorted_by_start_time tracks))
    as [[m l]|e] eqn:Hloop; cbn [bind] in E; [|discriminate].
  inversion E; subst. cbn [fst].
  assert (Hm : Forall (traced files hl) merged).
  { apply (merge_loop_Forall _ (traced_append files hl)
             (sorted_by_start_time tracks) [] merged None l);
      [constructor | | exact Hloop].
    now apply sorted_by_start_time_Forall. }
  apply List.Forall_forall. intros t Ht. apply filter_In in Ht as [Ht _].
  rewrite List.Forall_forall in Hm. now apply Hm.
Qed.

(** X13: a session that [load_tracks] returns is highlighted if and only if
    one of its file names is among [highlight_filenames]. *)
Theorem load_tracks_highlight (dirs : gmap string (list dir_entry))
    (cache cache' : cache_dir) (base_dir : string) (year : Z)
    (highlight_filenames : list string) (out : list Track.t) :
  load_tracks dirs cache base_dir year highlight_filenames = (Ok out, cache') ->
  forall t, In t out ->
    (Track.highlight t = true
     <-> exists n, In n (Track.file_names t) /\ In n highlight_filenames).
Proof.
  intros Hload t Ht.
  destruct (load_tracks_traced _ _ _ _ _ _ _ Hload) as (files & _ & Htr).
  rewrite List.Forall_forall in Htr. destruct (Htr t Ht) as (_ & _ & ->).
  rewrite existsb_exists. split.
  - intros (n & Hn & Hc). exists n. split; [exact Hn|].
    unfold contains in Hc. apply existsb_exists in Hc as (m & Hm & E).
    apply String.eqb_eq in E. now subst.
  - intros (n & Hn & Hh). exists n. split; [exact Hn|].
    unfold contains. apply existsb_exists. exists n.
    split; [exact Hh | apply String.eqb_refl].
Qed.

Lemma load_tracks_highlight_witness :
  exists out cache',
    load_tracks {[ "runs"%string := runs ]} ∅ "runs" 2016 ["b.gpx"%string]
    = (Ok out, cache')
    /\ forall t, In t out ->
         (Track.highlight t = true
          <-> exists n, In n (Track.file_names t) /\ In n ["b.gpx"%string]).
Proof.
  destruct (load_tracks {[ "runs"%string := runs ]} ∅ "runs" 2016 ["b.gpx"%string])
    as [r c] eqn:E.
  pose proof load_tracks_scenario as Hs. rewrite E in Hs. cbn [fst] in Hs.
  subst r. eexists _, c. split; [reflexivity|].
  exact (load_tracks_highlight _ _ _ _ _ _ _ E).
Defined.

(** X14: every session that [load_tracks] returns has at least one file
    name, and each of its file names is the name of a regular file of the
    directory, some stem followed by ".gpx". *)
Theorem load_tracks_file_names (dirs : gmap string (list dir_entry))
    (cache cache' : cache_dir) (base_dir : string) (year : Z)
    (highlight_filenames : list string) (out : list Track.t) :
  load_tracks dirs cache base_dir year highlight_filenames = (Ok out, cache') ->
  exists entries,
    dirs !! base_dir = Some entries
    /\ forall t, In t out ->
         Track.file_names t <> []
         /\ forall n, In n (Track.file_names t) ->
              (exists f, In (File n f) entries)
              /\ exists stem, n = String.append stem ".gpx".
Proof.
  intros Hload.
  destruct (load_tracks_traced _ _ _ _ _ _ _ Hload) as (files & Hfiles & Htr).
  destruct (list_gpx_files_In _ _ _ Hfiles) as (entries & Hdir & Hin).
  exists entries. split; [exact Hdir|]. intros t Ht.
  rewrite List.Forall_forall in Htr. destruct (Htr t Ht) as (Hne & Hnames & _).
  split; [exact Hne|]. intros n Hn. destruct (Hnames n Hn) as [f Hf].
  destruct (Hin n f Hf) as [He Hsuf]. split; [now exists f|].
  now apply endswith_iff.
Qed.

Lemma load_tracks_file_names_witness :
  exists out cache' entries,
    load_tracks {[ "runs"%string := runs ]} ∅ "runs" 2016 ["b.gpx"%string]
    = (Ok out, cache')
    /\ ({[ "runs"%string := runs ]} : gmap string (list dir_entry)) !! "runs"%string
       = Some entries
    /\ forall t, In t out -> Track.file_names t <> [].
Proof.
  destruct (load_tracks {[ "runs"%string := runs ]} ∅ "runs" 2016 ["b.gpx"%string])
    as [r c] eqn:E.
  pose proof load_tracks_scenario as Hs. rewrite E in Hs. cbn [fst] in Hs.
  subst r.
  destruct (load_tracks_file_names _ _ _ _ _ _ _ E) as (entries & Hd & H).
  eexists _, c, entries. split; [reflexivity|]. split; [exact Hd|].
  intros t Ht. now destruct (H t Ht).
Defined.

(** ** load_tracks and compute_lengths *)

Lemma load_tracks_min_length (dirs : gmap string (list dir_entry))
    (cache cache' : cache_dir) (base_dir : string) (year : Z)
    (hl : list string) (out : list Track.t) :
  load_tracks dirs cache base_dir year hl = (Ok out, cache') ->
  forall t, In t out -> (1000 <= Track.length t)%Q.
Proof.
  unfold load_tracks.
  destruct (list_gpx_files dirs base_dir) as [files|e]; [|discriminate].
  destruct (fold_left _ files ([], cache)) as [tracks c].
  destruct (merge_tracks (sorted_by_start_time tracks)) as [merged|e];
    cbn [bind]; [|discriminate].
  intros H. inversion H; subst. intros t Ht.
  apply filter_In in Ht as [_ Ht]. now apply Qle_bool_iff in Ht.
Qed.

(** X15: the statistics of what [load_tracks] returns.  On a list of
    sessions from [load_tracks] that is not empty (the only lists that
    [main] passes on to [poster]), [compute_lengths] returns, the least
    length that it reports is at least 1 km, and the total is at least 1 km
    for every session. *)
Theorem load_tracks_statistics (dirs : gmap string (list dir_entry))
    (cache cache' : cache_dir) (base_dir : string) (year : Z)
    (highlight_filenames : list string) (out : list Track.t) :
  load_tracks dirs cache base_dir year highlight_filenames = (Ok out, cache') ->
  out <> [] ->
  exists total average least greatest,
    compute_lengths out = Ok (total, average, least, greatest)
    /\ (1 <= least)%Q
    /\ (inject_Z (Z.of_nat (List.length out)) <= total)%Q.
Proof.
  intros Hload Hne.
  pose proof (load_tracks_min_length _ _ _ _ _ _ _ Hload) as Hmin.
  assert (Hall : Forall nonneg_length out).
  { apply List.Forall_forall. intros t Ht. specialize (Hmin t Ht).
    unfold nonneg_length. lra. }
  unfold compute_lengths.
  pose proof (lengths_fold_seen out [] (-1, -1, 0)%Q (List.Forall_nil _) Hall)
    as Hseen.
  cbn [app] in Hseen.
  destruct (fold_left lengths_step out (-1, -1, 0)%Q) as [[mn mx] tot].
  destruct Hseen as [Htot Hst].
  { split; [reflexivity | left; auto]. }
  destruct Hst as [(-> & _) | ((tm & Htm & Emn) & Hmn & _ & Hmx)];
    [congruence|].
  pose proof (length_pos_Q out Hne) as Hn.
  rewrite py_div_ok by lra. cbn [bind].
  eexists _, _, _, _. split; [reflexivity|]. split.
  - specialize (Hmin tm Htm). rewrite Emn. lra.
  - destruct (sum_lengths_bounds out 1000 mx Hmin Hmx) as [Hlo _].
    rewrite Htot. lra.
Qed.

Lemma load_tracks_statistics_witness :
  exists out cache' total average least greatest,
    load_tracks {[ "runs"%string := runs ]} ∅ "runs" 2016 ["b.gpx"%string]
    = (Ok out, cache')
    /\ compute_lengths out = Ok (total, average, least, greatest)
    /\ (1 <= least)%Q.
Proof.
  destruct (load_tracks {[ "runs"%string := runs ]} ∅ "runs" 2016 ["b.gpx"%string])
    as [r c] eqn:E.
  pose proof load_tracks_scenario as Hs. rewrite E in Hs. cbn [fst] in Hs.
  subst r.
  destruct (load_tracks_statistics _ _ _ _ _ _ _ E)
    as (total & average & least & greatest & H1 & H2 & _); [discriminate|].
  eexists _, c, total, average, least, greatest.
  split; [reflexivity|]. split; [exact H1 | exact H2].
Defined.

(** ** poster: the tiles *)

Lemma Qfloor_div_Z (a b : Z) :
  0 < b -> Qfloor (inject_Z a / inject_Z b) = a / b.
Proof.
  intros Hb. destruct b as [|p|p]; try lia.
  unfold Qdiv, Qmult, Qinv, inject_Z, Qfloor. cbn [Qnum Qden].
  now rewrite Z.mul_1_r, Pos.mul_1_l.
Qed.

(** The cell of a tile: the index of the track, divided by a column count
    that is the whole number [x]. *)
Lemma tile_rect_cell (size count_x spacing_y : Q) (x index : Z) :
  0 < x -> (count_x == inject_Z x)%Q ->
  exists xo yo,
    tile_rect size count_x spacing_y index
    = Ok (xo, yo, 0.9 * size, 0.9 * size)%Q
    /\ (xo == tracks_x + (0.05 + inject_Z (index mod x)) * size)%Q
    /\ (yo == tracks_y + (0.05 + inject_Z (index / x)) * size
              + inject_Z (index / x) * spacing_y)%Q.
Proof.
  intros Hx Hcx. pose proof (inject_Z_pos _ Hx) as Hxq.
  assert (Hcx0 : ~ (count_x == 0)%Q) by lra.
  unfold tile_rect. rewrite py_mod_ok, py_floordiv_ok by exact Hcx0.
  cbn [bind].
  assert (Hfloor : Qfloor (inject_Z index / count_x) = index / x).
  { rewrite <- (Qfloor_div_Z index x Hx). apply Qfloor_comp.
    now rewrite Hcx. }
  rewrite Hfloor. eexists _, _. split; [reflexivity|]. split; [|reflexivity].
  assert (Hmod : (inject_Z index - count_x * inject_Z (index / x)
                  == inject_Z (index mod x))%Q).
  { rewrite Hcx, (Z.mod_eq index x) by lia.
    unfold Z.sub. rewrite inject_Z_plus, inject_Z_opp, inject_Z_mult. ring. }
  now rewrite Hmod.
Qed.

(** The tiles of a grid with a selected size. *)
Lemma grid_tiles (count width height : Z) :
  1 <= count -> 1 < width ->
  (exists y, 1 <= y < width /\ (0 <= candidate_waste count width height y)%Q) ->
  exists x rows s cx cy sp,
    compute_grid count width height = Ok (s, cx, cy, sp)
    /\ least_waste count width height (range 1 width) x
    /\ 1 <= x /\ (cx == inject_Z x)%Q /\ (cy == inject_Z rows)%Q
    /\ (0 < s)%Q /\ (0 < s + sp)%Q
    /\ (forall index, 0 <= index < count ->
          exists xo yo side,
            tile_rect s cx sp index = Ok (xo, yo, side, side)
            /\ 0 <= index mod x < x /\ 0 <= index / x < rows
            /\ (xo == tracks_x + (0.05 + inject_Z (index mod x)) * s)%Q
            /\ (yo == tracks_y + (0.05 + inject_Z (index / x)) * s
                      + inject_Z (index / x) * sp)%Q
            /\ (0 < side)%Q
            /\ (tracks_x < xo)%Q
            /\ (xo + side < tracks_x + inject_Z width)%Q
            /\ (tracks_y < yo)%Q
            /\ ((0 <= sp)%Q -> (yo + side < tracks_y + inject_Z height)%Q)).
Proof.
  intros Hc Hw (y0 & Hy0 & Hwaste0).
  destruct (grid_scan_least count width height (range 1 width))
    as [[_ Hall] | (x & Hleast & E)].
  { apply in_range in Hy0. apply Hall in Hy0. lra. }
  pose proof Hleast as (Hx & Hpos & _).
  apply in_range in Hx.
  destruct (compute_grid_rows count width height x _ Hc
              ltac:(lia) ltac:(lia) E)
    as (cx & cy & sp & rows & Hgrid & Hcx & Hcy & Hrows & Hsp).
  assert (Hx0 : 0 < x) by lia.
  assert (Hrows1 : 1 <= rows) by nia.
  pose proof (candidate_size_pos width x ltac:(lia) Hx0) as Hs.
  pose proof (inject_Z_pos _ Hx0) as Hxq.
  assert (Hxs : (inject_Z x * candidate_size width x == inject_Z width)%Q).
  { unfold candidate_size. field. lra. }
  assert (Hcq : (1 <= inject_Z count)%Q)
    by (unfold Qle, inject_Z; simpl; lia).
  assert (Hrq : (1 <= inject_Z rows)%Q).
  { change 1%Q with (inject_Z 1). rewrite <- Zle_Qle. lia. }
  assert (Hwh : (0 < inject_Z (width * height))%Q).
  { unfold candidate_waste in Hpos.
    assert (0 < inject_Z count * candidate_size width x
                * candidate_size width x)%Q by nra.
    lra. }
  assert (Hh : (0 < inject_Z height)%Q).
  { apply inject_Z_pos. change 0%Q with (inject_Z 0) in Hwh.
    rewrite <- Zlt_Qlt in Hwh. nia. }
  assert (Hfill : (inject_Z rows * (candidate_size width x + sp)
                   == inject_Z height)%Q).
  { rewrite <- Hcy, Hsp. field. lra. }
  set (s := candidate_size width x) in *.
  exists x, rows, s, cx, cy, sp.
  assert (Hgap0 : (0 < s + sp)%Q) by nra.
  split; [exact Hgrid|]. split; [exact Hleast|]. split; [lia|].
  split; [exact Hcx|].
  split; [exact Hcy|]. split; [exact Hs|]. split; [exact Hgap0|].
  intros index Hi.
  destruct (tile_rect_cell s cx sp x index Hx0 Hcx) as (xo & yo & Ht & Hxo & Hyo).
  exists xo, yo, (0.9 * s)%Q. split; [exact Ht|].
  pose proof (Z.mod_pos_bound index x Hx0) as Hmod.
  assert (Hdiv : 0 <= index / x < rows).
  { split; [apply Z.div_pos; lia|].
    apply Z.div_lt_upper_bound; [lia|]. nia. }
  split; [exact Hmod|]. split; [exact Hdiv|]. split; [exact Hxo|].
  split; [exact Hyo|].
  assert (Hcol : (0 <= inject_Z (index mod x))%Q
                 /\ (inject_Z (index mod x) + 1 <= inject_Z x)%Q).
  { change 0%Q with (inject_Z 0). change 1%Q with (inject_Z 1).
    rewrite <- inject_Z_plus, <- !Zle_Qle. lia. }
  assert (Hrow : (0 <= inject_Z (index / x))%Q
                 /\ (inject_Z (index / x) + 1 <= inject_Z rows)%Q).
  { change 0%Q with (inject_Z 0). change 1%Q with (inject_Z 1).
    rewrite <- inject_Z_plus, <- !Zle_Qle. lia. }
  revert Hxo Hyo Hcol Hrow.
  generalize (inject_Z (index mod x)) (inject_Z (index / x)).
  intros col row Hxo Hyo [Hc0 Hc1] [Hr0 Hr1].
  assert (Hgap : (0 < s + sp)%Q) by nra.
  unfold tracks_x, tracks_y in *.
  split; [lra|]. split; [rewrite Hxo; nra|].
  split; [rewrite Hxo; nra|]. split; [rewrite Hyo; nra|].
  intros Hsp0. rewrite Hyo. nra.
Qed.

(** Up to 34133 tracks, the 160 columns are a candidate of the scan over
    the track area of the poster: [180 * 240 - count * (180/160)^2 >= 0]. *)
Lemma poster_grid_candidate (count : Z) :
  1 <= count <= 34133 ->
  (0 <= candidate_waste count tracks_w tracks_h 160)%Q.
Proof.
  intros [H1 H2]. rewrite Zle_Qle in H2.
  unfold candidate_waste, candidate_size.
  change (inject_Z (tracks_w * tracks_h)) with 43200%Q.
  change (inject_Z tracks_w) with 180%Q. change (inject_Z 160) with 160%Q.
  change (inject_Z 34133) with 34133%Q in H2.
  assert (E : (inject_Z count * (180 / 160) * (180 / 160)
               == inject_Z count * (81 # 64))%Q) by (field; lra).
  rewrite E. lra.
Qed.

(** Up to 34133 tracks, the candidate of least waste has at most 160
    columns. *)
Lemma poster_columns (count x : Z) :
  1 <= count <= 34133 ->
  least_waste count tracks_w tracks_h (range 1 tracks_w) x ->
  1 <= x <= 160.
Proof.
  intros Hc (Hx & Hpos & Hleast). apply in_range in Hx.
  split; [lia|].
  assert (Hle : (candidate_waste count tracks_w tracks_h x
                 <= candidate_waste count tracks_w tracks_h 160)%Q).
  { apply Hleast; [apply in_range; unfold tracks_w; lia|].
    now apply poster_grid_candidate. }
  apply (waste_le_size_ge count tracks_w tracks_h x 160) in Hle;
    [|lia | unfold tracks_w; lia | lia | lia].
  unfold candidate_size in Hle.
  change (inject_Z tracks_w) with 180%Q in Hle.
  change (inject_Z 160) with 160%Q in Hle.
  assert (Hxq : (0 < inject_Z x)%Q) by (apply inject_Z_pos; lia).
  assert (Hd : (180 / inject_Z x * inject_Z x == 180)%Q) by (field; lra).
  assert (Hq : (inject_Z x <= inject_Z 160)%Q).
  { change (inject_Z 160) with 160%Q.
    revert Hle Hd. generalize (180 / inject_Z x)%Q. intros d Hle Hd.
    assert (H160 : (180 / 160 == 9 # 8)%Q) by reflexivity.
    rewrite H160 in Hle. nra. }
  now rewrite <- Zle_Qle in Hq.
Qed.

(** Up to 160 columns on the track area, the column count that the program
    computes in binary64 is the whole number of the model. *)
Lemma count_x_whole (x : Z) :
  1 <= x <= 160 -> whole_in_doubles tracks_w x = true.
Proof.
  intros Hx.
  assert (H : forallb (whole_in_doubles tracks_w) (range 1 161) = true)
    by (vm_compute; reflexivity).
  rewrite forallb_forall in H. apply H, in_range. lia.
Qed.

(** The bound is sharp.  With 34134 tracks the model selects 161 columns,
    and in binary64 [180/(180/161)] is greater than 161: there the program
    puts the track at index 161 into column 161 of row 0, to the right of
    the track area, where the model starts the next row. *)
Lemma count_x_not_whole :
  (exists cx cy sp,
     compute_grid 34134 tracks_w tracks_h
     = Ok (candidate_size tracks_w 161, cx, cy, sp)
     /\ (cx == inject_Z 161)%Q)
  /\ whole_in_doubles tracks_w 161 = false
  /\ PrimFloat.ltb (float_of_int 161) (count_x_in_doubles tracks_w 161) = true.
Proof.
  split; [|split; vm_compute; reflexivity].
  exists (28980 # 180), 213%Q, (300 # 34293).
  split; vm_compute; reflexivity.
Qed.

(** X16: the tiles that [poster] hands to [draw_track], for 1 to 34133
    tracks on the track area of the poster.  [compute_grid] selects a column
    count [x] of at most 160, for which the column count that the program
    computes in binary64 is the whole number [x] of the model.  The track
    at [index] gets the cell in column [index mod x] and row [index div x],
    a row of the grid; its tile is a square of 0.9 tile sizes that lies
    between the left and the right edge of the track area and below its
    upper edge; it lies above the lower edge as well when the row spacing
    is not negative.  Two tracks never get the same tile.  (From 34134
    tracks on the selected column count can be one that the program does
    not compute as a whole number, see [count_x_not_whole].) *)
Theorem poster_tiles (count : Z) :
  1 <= count <= 34133 ->
  exists x rows s cx cy sp,
    compute_grid count tracks_w tracks_h = Ok (s, cx, cy, sp)
    /\ 1 <= x <= 160 /\ whole_in_doubles tracks_w x = true
    /\ (cx == inject_Z x)%Q /\ (cy == inject_Z rows)%Q
    /\ (forall index, 0 <= index < count ->
          exists xo yo side,
            tile_rect s cx sp index = Ok (xo, yo, side, side)
            /\ 0 <= index mod x < x /\ 0 <= index / x < rows
            /\ (xo == tracks_x + (0.05 + inject_Z (index mod x)) * s)%Q
            /\ (yo == tracks_y + (0.05 + inject_Z (index / x)) * s
                      + inject_Z (index / x) * sp)%Q
            /\ (0 < side)%Q
            /\ (tracks_x < xo)%Q
            /\ (xo + side < tracks_x + inject_Z tracks_w)%Q
            /\ (tracks_y < yo)%Q
            /\ ((0 <= sp)%Q -> (yo + side < tracks_y + inject_Z tracks_h)%Q))
    /\ (forall i j xi yi xj yj side,
          0 <= i < count -> 0 <= j < count -> i <> j ->
          tile_rect s cx sp i = Ok (xi, yi, side, side) ->
          tile_rect s cx sp j = Ok (xj, yj, side, side) ->
          ~ (xi == xj)%Q \/ ~ (yi == yj)%Q).
Proof.
  intros Hc.
  destruct (grid_tiles count tracks_w tracks_h)
    as (x & rows & s & cx & cy & sp & Hgrid & Hleast & _ & Hcx & Hcy & Hs
        & Hgap & Htiles).
  { lia. }
  { unfold tracks_w. lia. }
  { exists 160. split; [unfold tracks_w; lia|].
    now apply poster_grid_candidate. }
  pose proof (poster_columns count x Hc Hleast) as Hx.
  exists x, rows, s, cx, cy, sp.
  split; [exact Hgrid|]. split; [exact Hx|].
  split; [now apply count_x_whole|].
  split; [exact Hcx|]. split; [exact Hcy|]. split; [exact Htiles|].
  intros i j xi yi xj yj side Hi Hj Hij Hti Htj.
  destruct (Htiles i Hi) as (xi' & yi' & si & Ei & _ & _ & Hxi & Hyi & _).
  destruct (Htiles j Hj) as (xj' & yj' & sj & Ej & _ & _ & Hxj & Hyj & _).
  rewrite Hti in Ei. rewrite Htj in Ej.
  inversion Ei; subst xi' yi' si. inversion Ej; subst xj' yj'.
  destruct (Z.eq_dec (i mod x) (j mod x)) as [Em|Em].
  - right. intros Ey. apply Hij. rewrite Hyi, Hyj in Ey.
    assert (Hq : (inject_Z (i / x) == inject_Z (j / x))%Q) by nra.
    apply (proj1 (inject_Z_injective _ _)) in Hq.
    rewrite (Z.div_mod i x), (Z.div_mod j x) by lia. now rewrite Em, Hq.
  - left. intros Ex. apply Em. rewrite Hxi, Hxj in Ex.
    assert (Hq : (inject_Z (i mod x) == inject_Z (j mod x))%Q) by nra.
    exact (proj1 (inject_Z_injective _ _) Hq).
Qed.

Lemma poster_tiles_witness :
  exists x rows s cx cy sp xo yo side,
    compute_grid 5 tracks_w tracks_h = Ok (s, cx, cy, sp)
    /\ 1 <= x <= 160 /\ whole_in_doubles tracks_w x = true
    /\ (cx == inject_Z x)%Q /\ (cy == inject_Z rows)%Q
    /\ tile_rect s cx sp 4 = Ok (xo, yo, side, side)
    /\ (tracks_x < xo)%Q
    /\ (xo + side < tracks_x + inject_Z tracks_w)%Q.
Proof.
  destruct (poster_tiles 5)
    as (x & rows & s & cx & cy & sp & Hg & Hx & Hwhole & Hcx & Hcy & Htiles
        & _).
  - lia.
  - destruct (Htiles 4 ltac:(lia))
      as (xo & yo & side & Ht & _ & _ & _ & _ & _ & H1 & H2 & _).
    exists x, rows, s, cx, cy, sp, xo, yo, side.
    split; [exact Hg|]. split; [exact Hx|]. split; [exact Hwhole|].
    split; [exact Hcx|]. split; [exact Hcy|]. split; [exact Ht|].
    split; [exact H1 | exact H2].
Defined.

(** ** poster: the tracks that it draws *)

Lemma map_result_all_ok {A B : Type} (f : A -> result B) (xs : list A) :
  (forall x, In x xs -> exists y, f x = Ok y) ->
  exists ys, map_result f xs = Ok ys.
Proof.
  induction xs as [|x xs IH]; intros H; cbn [map_result].
  - now exists [].
  - destruct (H x ltac:(now left)) as [y ->]. cbn [bind].
    destruct IH as [ys ->]; [intros z Hz; apply H; now right|].
    cbn [bind]. now eexists.
Qed.

Lemma map_result_each_ok {A B : Type} (f : A -> result B) (xs : list A) :
  forall ys, map_result f xs = Ok ys ->
  forall x, In x xs -> exists y, f x = Ok y.
Proof.
  induction xs as [|x xs IH]; intros ys H z Hz; [destruct Hz|].
  cbn [map_result] in H.
  destruct (f x) as [y|e] eqn:Ex; cbn [bind] in H; [|discriminate].
  destruct (map_result f xs) as [ys'|e] eqn:Exs; cbn [bind] in H;
    [|discriminate].
  destruct Hz as [<-|Hz]; [now exists y | exact (IH ys' eq_refl z Hz)].
Qed.

Lemma map_result_map {A B C : Type} (f : A -> result B) (g : B -> C)
    (h : A -> C) (xs : list A) :
  (forall x y, f x = Ok y -> g y = h x) ->
  forall ys, map_result f xs = Ok ys -> map g ys = map h xs.
Proof.
  intros Hgh. induction xs as [|x xs IH]; intros ys H; cbn [map_result] in H.
  - now inversion H.
  - destruct (f x) as [y|e] eqn:Ex; cbn [bind] in H; [|discriminate].
    destruct (map_result f xs) as [ys'|e] eqn:Exs; cbn [bind] in H;
      [|discriminate].
    inversion H; subst ys. cbn [map]. now rewrite (Hgh x y Ex), (IH ys' eq_refl).
Qed.

Lemma enumerate_from_snd {A : Type} (xs : list A) : forall k,
  map snd (combine (map Z.of_nat (seq k (List.length xs))) xs) = xs.
Proof.
  induction xs as [|x xs IH]; intros k; [reflexivity|].
  cbn [List.length seq map combine snd]. now rewrite IH.
Qed.

Lemma enumerate_snd {A : Type} (xs : list A) : map snd (enumerate xs) = xs.
Proof. apply enumerate_from_snd. Qed.

Lemma enumerate_In {A : Type} (xs : list A) (i : Z) (x : A) :
  In (i, x) (enumerate xs) ->
  0 <= i < Z.of_nat (List.length xs) /\ In x xs.
Proof.
  intros H. split; [|exact (in_combine_r _ _ _ _ H)].
  apply in_combine_l, in_map_iff in H as (n & <- & Hn).
  apply in_seq in Hn. lia.
Qed.

Lemma In_enumerate {A : Type} (xs : list A) (x : A) :
  In x xs -> exists i, In (i, x) (enumerate xs).
Proof.
  intros H. rewrite <- (enumerate_snd xs) in H.
  apply in_map_iff in H as ([i y] & E & H). cbn [snd] in E. subst y.
  now exists i.
Qed.

Lemma Q2R_inject_Z (z : Z) : Q2R (inject_Z z) = IZR z.
Proof. unfold Q2R, inject_Z. cbn [Qnum Qden]. lra. Qed.

Lemma Q2R_nonzero (q : Q) : ~ (q == 0)%Q -> Q2R q <> 0%R.
Proof.
  intros H E. apply H, eqR_Qeq. rewrite E. unfold Q2R. cbn [Qnum Qden]. lra.
Qed.

(** What [draw_tile] returns: the flag of the track, and what [draw_track]
    returns for the tile of its index. *)
Lemma draw_tile_drawn (size count_x spacing_y : Q) (it : Z * Track.t)
    (d : bool * list (list (R * R))) :
  draw_tile size count_x spacing_y it = Ok d ->
  exists x y w h,
    tile_rect size count_x spacing_y (fst it) = Ok (x, y, w, h)
    /\ fst d = Track.highlight (snd it)
    /\ draw_track (snd it) (Q2R x) (Q2R y) (Q2R w) (Q2R h) = Ok (snd d).
Proof.
  unfold draw_tile.
  destruct (tile_rect size count_x spacing_y (fst it)) as [[[[x y] w] h]|e];
    cbn [bind]; [|discriminate].
  destruct (draw_track (snd it) (Q2R x) (Q2R y) (Q2R w) (Q2R h))
    as [lines|e] eqn:Hdraw; cbn [bind]; [|discriminate].
  intros H. inversion H; subst d. exists x, y, w, h.
  split; [reflexivity|]. split; [reflexivity | exact Hdraw].
Qed.

Lemma draw_tile_ok (size count_x spacing_y : Q) (it : Z * Track.t) :
  ~ (size == 0)%Q -> ~ (count_x == 0)%Q -> has_extent (snd it) ->
  exists d, draw_tile size count_x spacing_y it = Ok d.
Proof.
  intros Hs Hcx (lines & min_x & min_y & max_x & max_y & Hl & Hb & Hx & Hy).
  unfold draw_tile, tile_rect.
  rewrite py_mod_ok, py_floordiv_ok by exact Hcx. cbn [bind].
  match goal with
  | |- context [draw_track ?t ?x ?y ?w ?h] =>
      destruct (draw_track_ok t x y w h lines min_x min_y max_x max_y
                  Hl Hb Hx Hy) as [drawn ->]
  end.
  - apply Q2R_nonzero. intros E. apply Hs. lra.
  - cbn [bind]. now eexists.
Qed.

(** [compute_grid] returns for every count from 1, with a size and a column
    count that are not 0: a selected size, or the sentinels' layout. *)
Lemma compute_grid_returns (count width height : Z) :
  1 <= count -> 1 < width ->
  exists s cx cy sp,
    compute_grid count width height = Ok (s, cx, cy, sp)
    /\ ~ (s == 0)%Q /\ ~ (cx == 0)%Q.
Proof.
  intros Hc Hw.
  destruct (scanned_grid_scan count width height (range 1 width))
    as [E Hall | x Hx E Hpos].
  - destruct (compute_grid_sentinel count width height Hc ltac:(lia) E)
      as (cx & cy & sp & Hg & Hcx & _).
    exists (-1)%Q, cx, cy, sp. split; [exact Hg|].
    pose proof (inject_Z_pos width ltac:(lia)). split; [discriminate | lra].
  - apply in_range in Hx.
    destruct (compute_grid_selected count width height x _ Hc
                ltac:(lia) ltac:(lia) E) as (cx & cy & sp & Hg & Hcx & _).
    pose proof (candidate_size_pos width x ltac:(lia) ltac:(lia)).
    pose proof (inject_Z_pos x ltac:(lia)).
    exists (candidate_size width x), cx, cy, sp.
    split; [exact Hg|]. split; lra.
Qed.

Lemma compute_lengths_nil : compute_lengths [] = Raise ZeroDivisionError.
Proof. reflexivity. Qed.

Lemma poster_nil : poster [] = Raise ZeroDivisionError.
Proof. unfold poster. rewrite compute_lengths_nil. reflexivity. Qed.

Lemma poster_returns (tracks : list Track.t) :
  tracks <> [] -> Forall has_extent tracks ->
  exists out, poster tracks = Ok out.
Proof.
  intros Hne Hall. unfold poster.
  assert (Hstats : exists stats, compute_lengths tracks = Ok stats).
  { unfold compute_lengths.
    destruct (fold_left lengths_step tracks (-1, -1, 0)%Q) as [[mn mx] tot].
    pose proof (length_pos_Q tracks Hne) as Hn.
    rewrite py_div_ok by lra. cbn [bind]. now eexists. }
  destruct Hstats as [stats ->]. cbn [bind].
  destruct (compute_grid_returns (Z.of_nat (List.length tracks))
              tracks_w tracks_h) as (s & cx & cy & sp & -> & Hs & Hcx).
  { destruct tracks; [contradiction | cbn [List.length]; lia]. }
  { unfold tracks_w. lia. }
  cbn [bind].
  destruct (map_result_all_ok (draw_tile s cx sp) (enumerate tracks))
    as [drawn ->].
  - intros [i t] Hit. apply draw_tile_ok; [exact Hs | exact Hcx|].
    cbn [snd]. apply enumerate_In in Hit as [_ Ht].
    rewrite List.Forall_forall in Hall. now apply Hall.
  - cbn [bind]. now eexists.
Qed.

(** What [poster] returns is made of what its three steps return. *)
Lemma poster_ok (tracks : list Track.t)
    (out : Q * Q * Q * Q * list (bool * list (list (R * R)))) :
  poster tracks = Ok out ->
  exists s cx cy sp,
    compute_lengths tracks = Ok (fst out)
    /\ compute_grid (Z.of_nat (List.length tracks)) tracks_w tracks_h
       = Ok (s, cx, cy, sp)
    /\ map_result (draw_tile s cx sp) (enumerate tracks) = Ok (snd out).
Proof.
  unfold poster.
  destruct (compute_lengths tracks) as [stats|e]; [|discriminate].
  destruct (compute_grid (Z.of_nat (List.length tracks)) tracks_w tracks_h)
    as [[[[s cx] cy] sp]|e]; [|discriminate].
  destruct (map_result (draw_tile s cx sp) (enumerate tracks))
    as [drawn|e] eqn:Hdrawn.
  - cbn [bind]. rewrite Hdrawn. cbn [bind]. intros H. inversion H; subst out.
    now exists s, cx, cy, sp.
  - cbn [bind]. rewrite Hdrawn. discriminate.
Qed.

(** X17: when [poster] returns.  On the empty list it raises
    [ZeroDivisionError], from [compute_lengths]; it returns if and only if
    the list is not empty and the projected points of every track span a
    width and a height, so one track that stays on one longitude or one
    latitude, or has no point, or a point at a pole, makes the poster
    fail. *)
Theorem poster_returns_iff (tracks : list Track.t) :
  (tracks = [] -> poster tracks = Raise ZeroDivisionError)
  /\ ((exists out, poster tracks = Ok out)
      <-> tracks <> [] /\ Forall has_extent tracks).
Proof.
  split; [intros ->; exact poster_nil|]. split.
  - intros [out H]. split; [intros ->; rewrite poster_nil in H; discriminate|].
    destruct (poster_ok tracks out H) as (s & cx & cy & sp & _ & _ & Hdrawn).
    apply List.Forall_forall. intros t Ht.
    destruct (In_enumerate tracks t Ht) as [i Hi].
    destruct (map_result_each_ok _ _ _ Hdrawn _ Hi) as [d Hd].
    apply draw_tile_drawn in Hd as (x & y & w & h & _ & _ & Hd).
    exact (draw_track_returns_extent _ _ _ _ _ _ Hd).
  - intros [Hne Hall]. now apply poster_returns.
Qed.

Lemma diagonal_has_extent : has_extent diagonal.
Proof.
  destruct diagonal_is_drawn as [drawn Hd].
  exact (draw_track_returns_extent _ _ _ _ _ _ Hd).
Qed.

Lemma poster_returns_iff_witness : exists out, poster [diagonal] = Ok out.
Proof.
  apply (proj2 (proj2 (poster_returns_iff [diagonal]))).
  split; [discriminate|]. constructor; [exact diagonal_has_extent | constructor].
Defined.

(** ** poster: where it draws *)

Lemma draw_track_within (track : Track.t) (x_offset y_offset width height : R)
    (drawn : list (list (R * R))) :
  (0 < width)%R -> (0 < height)%R ->
  draw_track track x_offset y_offset width height = Ok drawn ->
  forall line p, In line drawn -> In p line ->
    (x_offset <= fst p <= x_offset + width
     /\ y_offset <= snd p <= y_offset + height)%R.
Proof.
  intros Hw Hh Hdraw.
  destruct (draw_track_drawn _ _ _ _ _ _ Hw Hh Hdraw)
    as (lines & min_x & min_y & max_x & max_y & scale & _ & Hb & Hx & Hy
        & Hs & Hsx & Hsy & _ & ->).
  pose proof (compute_bounds_of lines) as Hof. rewrite Hb in Hof.
  destruct Hof as (Hin & _).
  intros line p Hline Hp.
  apply in_map_iff in Hline as (line0 & <- & Hline0).
  apply in_map_iff in Hp as (q & <- & Hq).
  destruct (Hin q) as [[Hq1 Hq2] [Hq3 Hq4]];
    [apply in_concat; exists line0; now split|].
  cbn [fst snd].
  assert (0 <= scale * (fst q - min_x) <= scale * (max_x - min_x))%R by nra.
  assert (0 <= scale * (snd q - min_y) <= scale * (max_y - min_y))%R by nra.
  lra.
Qed.

(** X18: what [poster] draws, for up to 34133 tracks, the range in which
    the column count that the program computes in binary64 is the whole
    number of the model ([poster_columns], [count_x_whole]).  The numbers
    of the statistics are those of [compute_lengths]; there is one drawing
    for every track, in the order of the list and with the track's
    highlight flag; every point that is drawn lies between the left and the
    right edge of the track area of the poster and below its upper edge,
    and above its lower edge when the row spacing of the grid is not
    negative. *)
Theorem poster_draws_in_track_area (tracks : list Track.t)
    (stats : Q * Q * Q * Q) (drawn : list (bool * list (list (R * R)))) :
  Z.of_nat (List.length tracks) <= 34133 ->
  poster tracks = Ok (stats, drawn) ->
  compute_lengths tracks = Ok stats
  /\ map fst drawn = map Track.highlight tracks
  /\ exists s cx cy sp,
       compute_grid (Z.of_nat (List.length tracks)) tracks_w tracks_h
       = Ok (s, cx, cy, sp)
       /\ forall d line p, In d drawn -> In line (snd d) -> In p line ->
            (Q2R tracks_x < fst p < Q2R tracks_x + IZR tracks_w)%R
            /\ (Q2R tracks_y < snd p)%R
            /\ ((0 <= sp)%Q -> (snd p < Q2R tracks_y + IZR tracks_h)%R).
Proof.
  intros Hlen H.
  destruct (poster_ok tracks _ H) as (s0 & cx0 & cy0 & sp0 & Hstats & Hgrid0
                                      & Hdrawn).
  cbn [fst snd] in Hstats, Hdrawn.
  assert (Hne : tracks <> []).
  { intros ->. rewrite compute_lengths_nil in Hstats. discriminate. }
  assert (Hcount : 1 <= Z.of_nat (List.length tracks) <= 34133).
  { destruct tracks; [contradiction | cbn [List.length] in *; lia]. }
  destruct (grid_tiles (Z.of_nat (List.length tracks)) tracks_w tracks_h)
    as (x & rows & s & cx & cy & sp & Hgrid & _ & _ & _ & _ & _ & _ & Htiles).
  { lia. }
  { unfold tracks_w. lia. }
  { exists 160. split; [unfold tracks_w; lia|].
    now apply poster_grid_candidate. }
  rewrite Hgrid in Hgrid0. inversion Hgrid0; subst s0 cx0 cy0 sp0.
  split; [exact Hstats|]. split.
  - rewrite <- (enumerate_snd tracks) at 1. rewrite map_map.
    apply (map_result_map _ _ _ _
             (fun it d Hd => match draw_tile_drawn _ _ _ it d Hd with
                             | ex_intro _ _ (ex_intro _ _ (ex_intro _ _
                                 (ex_intro _ _ (conj _ (conj E _))))) => E
                             end) _ Hdrawn).
  - exists s, cx, cy, sp. split; [exact Hgrid|].
    intros d line p Hd Hline Hp.
    destruct (map_result_In _ _ _ Hdrawn) as [_ Hfrom].
    destruct (Hfrom d Hd) as ([i t] & Hit & Htile).
    apply enumerate_In in Hit as [Hi _].
    apply draw_tile_drawn in Htile as (xo & yo & w & h & Hrect & _ & Hdraw).
    cbn [fst snd] in Hrect, Hdraw.
    destruct (Htiles i Hi)
      as (xo' & yo' & side & Hrect' & _ & _ & _ & _ & Hside & Hleft & Hright
          & Htop & Hbottom).
    rewrite Hrect in Hrect'. inversion Hrect'; subst xo' yo' w h.
    apply Qlt_Rlt in Hside, Hleft, Hright, Htop.
    rewrite RMicromega.Q2R_0 in Hside.
    rewrite !Q2R_plus, Q2R_inject_Z in Hright.
    destruct (draw_track_within _ _ _ _ _ _ Hside Hside Hdraw line p Hline Hp)
      as [Hpx Hpy].
    split; [lra|]. split; [lra|].
    intros Hsp. apply Hbottom, Qlt_Rlt in Hsp.
    rewrite !Q2R_plus, Q2R_inject_Z in Hsp. lra.
Qed.

Lemma poster_draws_in_track_area_witness :
  exists stats drawn,
    poster [diagonal] = Ok (stats, drawn)
    /\ map fst drawn = map Track.highlight [diagonal].
Proof.
  destruct (poster_returns [diagonal]) as [[stats drawn] H].
  - discriminate.
  - constructor; [exact diagonal_has_extent | constructor].
  - exists stats, drawn. split; [exact H|].
    apply (poster_draws_in_track_area [diagonal] stats drawn); [|exact H].
    cbn [List.length]. lia.
Defined.

(** ** compute_grid: the tile size and the rectangle *)

(** X19: for [count >= 1], [width > 1], [height > 1] such that some column
    count [x] in [1 .. width-1] has non-negative waste, [compute_grid]
    returns a tile size [s] with [count * s^2 <= width * height]: the
    squares of the tracks have room in the rectangle. *)
Theorem compute_grid_no_overflow (count width height : Z) :
  1 <= count -> 1 < width -> 1 < height ->
  (exists x, 1 <= x < width /\ (0 <= candidate_waste count width height x)%Q) ->
  exists s cx cy sp,
    compute_grid count width height = Ok (s, cx, cy, sp)
    /\ (inject_Z count * s * s <= inject_Z (width * height))%Q.
Proof.
  intros Hc Hw Hh (x & Hx & Hwaste).
  destruct (scanned_grid_scan count width height (range 1 width))
    as [E Hall | y Hy E Hpos].
  - apply in_range in Hx. apply Hall in Hx. lra.
  - apply in_range in Hy.
    destruct (compute_grid_selected count width height y _ Hc
                ltac:(lia) ltac:(lia) E) as (cx & cy & sp & Hgrid & _).
    exists (candidate_size width y), cx, cy, sp. split; [exact Hgrid|].
    unfold candidate_waste in Hpos. lra.
Qed.

Lemma compute_grid_no_overflow_witness :
  exists s cx cy sp,
    compute_grid 5 180 240 = Ok (s, cx, cy, sp)
    /\ (inject_Z 5 * s * s <= inject_Z (180 * 240))%Q.
Proof.
  apply (compute_grid_no_overflow 5 180 240); try lia.
  exists 2. split; [lia|]. vm_compute. discriminate.
Defined.
